(** * Browser history manager backend (server-node.js)

    A shallow embedding of the request handlers of [server-node.js] and the
    properties of its navigation history: the ordered list [pages], the
    cursor [currentIndex], and the handlers of /api/current, /api/visit,
    /api/back, /api/forward and /api/clear.

    Conventions of the embedding.
    - A JavaScript string is the list of its UTF-16 code units.
    - [currentIndex] and array lengths are integers ([Z]); the values the
      handlers compute stay far below 2^53, where JavaScript numbers are
      exact.
    - A handler is a function from the module-level [browserHistory] (and
      the request) to the new [browserHistory] and the JSON response.
      [saveHistory] serialises [browserHistory] to a file, catches its own
      failure and never assigns [browserHistory]; it is therefore the
      identity on the state modelled here.
    - The platform's [URL] constructor is a parameter of the development:
      [None] stands for the [TypeError] it throws on a string that does not
      parse. *)

From Stdlib Require Import ZArith NArith String Ascii List Lia.
From stdpp Require Import base tactics option list numbers.

Local Open Scope Z_scope.

(** ** JavaScript strings *)

Abbreviation jsstring := (list N).

(** The code units of an ASCII literal of the source. *)
Definition lit (s : string) : jsstring :=
  map N_of_ascii (list_ascii_of_string s).

(** [String.prototype.startsWith] with one argument. *)
Fixpoint startsWith (s p : jsstring) {struct p} : bool :=
  match p with
  | [] => true
  | c :: p' =>
      match s with
      | [] => false
      | d :: s' => N.eqb d c && startsWith s' p'
      end
  end.

(** White space and line terminators of ECMAScript, the code units that
    [String.prototype.trim] strips. *)
Definition isWhiteSpace (c : N) : bool :=
  (N.eqb c 0x09 || N.eqb c 0x0A || N.eqb c 0x0B || N.eqb c 0x0C ||
   N.eqb c 0x0D || N.eqb c 0x20 || N.eqb c 0xA0 || N.eqb c 0x1680 ||
   (N.leb 0x2000 c && N.leb c 0x200A) ||
   N.eqb c 0x2028 || N.eqb c 0x2029 || N.eqb c 0x202F || N.eqb c 0x205F ||
   N.eqb c 0x3000 || N.eqb c 0xFEFF)%bool.

Fixpoint trimStart (s : jsstring) : jsstring :=
  match s with
  | [] => []
  | c :: s' => if isWhiteSpace c then trimStart s' else s
  end.

Definition trimEnd (s : jsstring) : jsstring := rev (trimStart (rev s)).

Definition trim (s : jsstring) : jsstring := trimEnd (trimStart s).

(** [s.split("/")[0]]: the code units before the first slash. *)
Fixpoint split_slash_0 (s : jsstring) : jsstring :=
  match s with
  | [] => []
  | c :: s' => if N.eqb c 0x2F then [] else c :: split_slash_0 s'
  end.

(** ** JavaScript arrays *)

Definition len {A} (l : list A) : Z := Z.of_nat (length l).

(** [a[i]] for an integer [i]: [None] is [undefined]. *)
Definition array_get {A} (a : list A) (i : Z) : option A :=
  if 0 <=? i then a !! Z.to_nat i else None.

(** [Array.prototype.slice(start, end)]: a negative bound counts from the
    end of the array, and both bounds are clamped to [0 .. length]. *)
Definition slice_bound {A} (a : list A) (i : Z) : Z :=
  if i <? 0 then Z.max (len a + i) 0 else Z.min i (len a).

Definition slice {A} (a : list A) (start end_ : Z) : list A :=
  let k := slice_bound a start in
  let final := slice_bound a end_ in
  take (Z.to_nat (final - k)) (drop (Z.to_nat k) a).

(** [a.push(x)]. *)
Definition push {A} (a : list A) (x : A) : list A := a ++ [x].

(** ** Data model *)

(** An element of [browserHistory.pages]. *)
Record page := Page {
  url : jsstring;
  timestamp : jsstring;
  title : jsstring
}.

(** The module-level [browserHistory]. *)
Record history := History {
  pages : list page;
  currentIndex : Z
}.

(** The initial value of [browserHistory]. *)
Definition initial : history := {| pages := []; currentIndex := -1 |}.

(** The [data] object of a successful response. *)
Module Data.
Record t := Make {
  page : jsstring;
  canGoBack : bool;
  canGoForward : bool;
  currentIndex : Z;
  totalPages : Z
}.
End Data.

(** What a handler sends: [res.json] with [success: true], or a status
    400 or 500 with its [error] text. *)
Inductive response :=
| Ok200 (data : Data.t) (message : option jsstring)
| Err400 (error : string)
| Err500 (error : string).

(** The value of [req.body.url], for a body that [express.json()] parsed
    into an object. [JOther] is any value that is not a string (absent,
    null, a boolean, a number, an array, an object): the handler tests only
    [typeof url !== "string"] on those. *)
Inductive jsvalue :=
| JString (s : jsstring)
| JOther.

(** The errors of the specification, as the responses that carry them. *)
Definition InvalidUrl_missing : response :=
  Err400 "URL is required and must be a string".
Definition InvalidUrl : response := Err400 "Invalid URL format".
Definition AtBeginning : response :=
  Err400 "Cannot go back - already at the beginning of history".
Definition AtEnd : response :=
  Err400 "Cannot go forward - already at the end of history".

(** An element of the [history] array of /api/history: the fields of the
    page spread into a new object, then [index] and [isCurrent]. *)
Module Item.
Record t := Make {
  url : jsstring;
  timestamp : jsstring;
  title : jsstring;
  index : Z;
  isCurrent : bool
}.
End Item.

(** The [data] object of /api/history. *)
Module HistoryData.
Record t := Make {
  history : list Item.t;
  currentIndex : Z;
  totalPages : Z
}.
End HistoryData.

(** The fields of a parsed [URL] object that the server reads. *)
Record URL := { hostname : jsstring }.

Section Server.

(** [new URL(s)]: [None] when the constructor throws. *)
Variable new_URL : jsstring -> option URL.

(** *** Helpers (lines 49-56 and 282-289) *)

Definition isValidUrl (string : jsstring) : bool :=
  match new_URL (if startsWith string (lit "http") then string
                 else lit "https://" ++ string) with
  | Some _ => true
  | None => false
  end.

Definition getDomainFromUrl (url : jsstring) : jsstring :=
  match new_URL (if startsWith url (lit "http") then url
                 else lit "https://" ++ url) with
  | Some urlObj => hostname urlObj
  | None => split_slash_0 url
  end.

(** *** GET /api/current (lines 71-89)

    The second component lists the indices at which the handler reads
    [browserHistory.pages]. *)
Definition api_current (h : history) : response * list Z :=
  let '(currentPage, reads) :=
    if (0 <=? currentIndex h) && (currentIndex h <? len (pages h))
    then (array_get (pages h) (currentIndex h), [currentIndex h])
    else (None, []) in
  (Ok200 {| Data.page := match currentPage with
                         | Some p => url p
                         | None => lit ""
                         end;
            Data.canGoBack := 0 <? currentIndex h;
            Data.canGoForward := currentIndex h <? len (pages h) - 1;
            Data.currentIndex := currentIndex h;
            Data.totalPages := len (pages h) |} None,
   reads).

(** *** POST /api/visit (lines 110-177) *)

(** Lines 130-136. *)
Definition normalizeUrl (trimmedUrl : jsstring) : jsstring :=
  if negb (startsWith trimmedUrl (lit "http://")) &&
     negb (startsWith trimmedUrl (lit "https://"))
  then lit "https://" ++ trimmedUrl
  else trimmedUrl.

(** Lines 139-143; [now] is [new Date().toISOString()]. *)
Definition newPage (normalizedUrl now : jsstring) : page :=
  {| url := normalizedUrl;
     timestamp := now;
     title := getDomainFromUrl normalizedUrl |}.

(** Lines 146-155. *)
Definition visit_update (h : history) (p : page) : history :=
  let pages1 :=
    if currentIndex h <? len (pages h) - 1
    then slice (pages h) 0 (currentIndex h + 1)
    else pages h in
  let pages2 := push pages1 p in
  {| pages := pages2; currentIndex := len pages2 - 1 |}.

Definition api_visit (h : history) (body_url : jsvalue) (now : jsstring)
  : history * response :=
  match body_url with
  | JOther => (h, InvalidUrl_missing)
  | JString [] => (h, InvalidUrl_missing)
  | JString url =>
      let trimmedUrl := trim url in
      if negb (isValidUrl trimmedUrl) then (h, InvalidUrl)
      else
        let normalizedUrl := normalizeUrl trimmedUrl in
        let h' := visit_update h (newPage normalizedUrl now) in
        (h',
         Ok200 {| Data.page := normalizedUrl;
                  Data.canGoBack := 0 <? currentIndex h';
                  Data.canGoForward := false;
                  Data.currentIndex := currentIndex h';
                  Data.totalPages := len (pages h') |}
               (Some (lit "Successfully visited: " ++ normalizedUrl)))
  end.

(** *** POST /api/back (lines 180-213)

    [browserHistory.currentIndex--] comes before the read of
    [currentPage.url]; when that entry is [undefined] the read throws,
    and the [catch] answers 500 with the decrement in place. *)
Definition api_back (h : history) : history * response :=
  if currentIndex h <=? 0 then (h, AtBeginning)
  else
    let h' := {| pages := pages h; currentIndex := currentIndex h - 1 |} in
    match array_get (pages h') (currentIndex h') with
    | Some currentPage =>
        (h',
         Ok200 {| Data.page := url currentPage;
                  Data.canGoBack := 0 <? currentIndex h';
                  Data.canGoForward := currentIndex h' <? len (pages h') - 1;
                  Data.currentIndex := currentIndex h';
                  Data.totalPages := len (pages h') |}
               (Some (lit "Went back to: " ++ url currentPage)))
    | None => (h', Err500 "Internal server error while going back")
    end.

(** *** POST /api/forward (lines 216-249) *)
Definition api_forward (h : history) : history * response :=
  if len (pages h) - 1 <=? currentIndex h then (h, AtEnd)
  else
    let h' := {| pages := pages h; currentIndex := currentIndex h + 1 |} in
    match array_get (pages h') (currentIndex h') with
    | Some currentPage =>
        (h',
         Ok200 {| Data.page := url currentPage;
                  Data.canGoBack := 0 <? currentIndex h';
                  Data.canGoForward := currentIndex h' <? len (pages h') - 1;
                  Data.currentIndex := currentIndex h';
                  Data.totalPages := len (pages h') |}
               (Some (lit "Went forward to: " ++ url currentPage)))
    | None => (h', Err500 "Internal server error while going forward")
    end.

(** *** DELETE /api/clear (lines 252-279) *)
Definition api_clear (h : history) : history * response :=
  ({| pages := []; currentIndex := -1 |},
   Ok200 {| Data.page := lit "";
            Data.canGoBack := false;
            Data.canGoForward := false;
            Data.currentIndex := -1;
            Data.totalPages := 0 |}
         (Some (lit "History cleared successfully"))).

(** *** GET /api/history (lines 92-107)

    [map] calls its function with the element and its 0-based position;
    [===] on two numbers is numeric equality. *)
Definition api_history (h : history) : HistoryData.t :=
  let historyWithIndex :=
    imap (fun index page =>
            {| Item.url := url page;
               Item.timestamp := timestamp page;
               Item.title := title page;
               Item.index := Z.of_nat index + 1;
               Item.isCurrent := Z.of_nat index =? currentIndex h |})
         (pages h) in
  {| HistoryData.history := historyWithIndex;
     HistoryData.currentIndex := currentIndex h;
     HistoryData.totalPages := len (pages h) |}.

(** *** The "Current" line of the startup banner (lines 328-332)

    [pages[i]?.url || "None"]: an absent entry and an empty URL both give
    ["None"]. *)
Definition banner_current (h : history) : jsstring :=
  if 0 <=? currentIndex h then
    match array_get (pages h) (currentIndex h) with
    | Some p =>
        match url p with
        | [] => lit "None"
        | u => u
        end
    | None => lit "None"
    end
  else lit "None".

(** *** Sequences of requests *)

Inductive request :=
| Visit (body_url : jsvalue) (now : jsstring)
| Back
| Forward
| Clear.

Definition handle (h : history) (r : request) : history * response :=
  match r with
  | Visit body_url now => api_visit h body_url now
  | Back => api_back h
  | Forward => api_forward h
  | Clear => api_clear h
  end.

(** The states after each request of [rs], served in order from [h]. *)
Fixpoint states_after (h : history) (rs : list request) : list history :=
  match rs with
  | [] => []
  | r :: rs' => let h' := (handle h r).1 in h' :: states_after h' rs'
  end.

(** [k] calls of /api/back, each of which must answer 200. *)
Fixpoint back_times (k : nat) (h : history) : option history :=
  match k with
  | O => Some h
  | S k' =>
      match api_back h with
      | (h', Ok200 _ _) => back_times k' h'
      | _ => None
      end
  end.

(** [k] calls of /api/forward, each of which must answer 200. *)
Fixpoint forward_times (k : nat) (h : history) : option history :=
  match k with
  | O => Some h
  | S k' =>
      match api_forward h with
      | (h', Ok200 _ _) => forward_times k' h'
      | _ => None
      end
  end.

(** *** Predicates of the specification *)

(** The request is accepted: the body is a non-empty string whose trimmed
    form passes [isValidUrl]. *)
Definition accepted (body_url : jsvalue) : bool :=
  match body_url with
  | JOther => false
  | JString [] => false
  | JString url => isValidUrl (trim url)
  end.

(** The truncation law as the code has it: after [k >= 1] successful
    calls of back the cursor is [currentIndex - k], and the visit keeps
    the entries up to that index. *)
Definition truncation_law_at_moved_cursor
    (h : history) (k : nat) (raw now : jsstring) : Prop :=
  forall h1, back_times k h = Some h1 ->
  pages (api_visit h1 (JString raw) now).1 =
    take (Z.to_nat (currentIndex h - Z.of_nat k + 1)) (pages h) ++
    [newPage (normalizeUrl (trim raw)) now].

(** The law with the entries kept up to the cursor held before the calls
    of back, the cursor's own entry included ([keep = currentIndex + 1]) or
    not ([keep = currentIndex]). *)
Definition truncation_law_at_original_cursor
    (keep : Z) (h : history) (k : nat) (raw now : jsstring) : Prop :=
  forall h1, back_times k h = Some h1 ->
  pages (api_visit h1 (JString raw) now).1 =
    take (Z.to_nat keep) (pages h) ++
    [newPage (normalizeUrl (trim raw)) now].

End Server.

(** ** A concrete constructor for running the handlers

    [sample_URL] accepts [http://] or [https://] followed by a non-empty
    host, which it ends at the first slash; every other string is refused.
    On the plain lower-case hosts of the examples below this is what the
    platform's constructor answers. *)
Definition sample_URL (s : jsstring) : option URL :=
  let rest :=
    if startsWith s (lit "https://") then Some (drop 8 s)
    else if startsWith s (lit "http://") then Some (drop 7 s)
    else None in
  match rest with
  | Some r =>
      match split_slash_0 r with
      | [] => None
      | host => Some {| hostname := host |}
      end
  | None => None
  end.

(** ** The invariant of the specification *)

Definition inv (h : history) : Prop :=
  -1 <= currentIndex h < len (pages h).

Definition empty_means_no_cursor (h : history) : Prop :=
  pages h = [] -> currentIndex h = -1.

(** Every reachable state has its cursor on an entry, or is empty with the
    cursor at -1. *)
Definition cursor_on_entry (h : history) : Prop :=
  (pages h = [] /\ currentIndex h = -1) \/
  0 <= currentIndex h < len (pages h).

(** The address starts with one of the two schemes the normalization
    knows. *)
Definition has_http_scheme (u : jsstring) : bool :=
  startsWith u (lit "http://") || startsWith u (lit "https://").

(** Neither end of the string is white space. *)
Definition no_leading_space (s : jsstring) : Prop :=
  match s with
  | [] => True
  | c :: _ => isWhiteSpace c = false
  end.

Definition no_trailing_space (s : jsstring) : Prop :=
  no_leading_space (rev s).

(** Concrete states for running the handlers. *)

Definition t0 : jsstring := lit "2024-01-01T00:00:00.000Z".

(** The entry a visit of [https://host] creates at [t0]. *)
Definition entry (host : string) : page :=
  newPage sample_URL (lit "https://" ++ lit host) t0.

(** Three visits, a.com, b.com and c.com, with the cursor at [c]. *)
Definition three_pages_at (c : Z) : history :=
  {| pages := [entry "a.com"; entry "b.com"; entry "c.com"];
     currentIndex := c |}.

(** ** Arrays: facts about [len], [array_get], [slice] and [push] *)

Lemma len_nonneg {A} (a : list A) : 0 <= len a.
Proof. unfold len. lia. Qed.

Lemma len_nil {A} : len (@nil A) = 0.
Proof. reflexivity. Qed.

Lemma len_push {A} (a : list A) (x : A) : len (push a x) = len a + 1.
Proof. unfold len, push. rewrite length_app. simpl. lia. Qed.

Lemma len_take {A} (a : list A) (n : Z) :
  0 <= n <= len a -> len (take (Z.to_nat n) a) = n.
Proof. unfold len. intros Hn. rewrite length_take. lia. Qed.

Lemma array_get_Some {A} (a : list A) (i : Z) :
  0 <= i < len a -> is_Some (array_get a i).
Proof.
  unfold array_get, len. intros Hi.
  destruct (Z.leb_spec 0 i) as [_ | Hneg]; [| lia].
  apply lookup_lt_is_Some. lia.
Qed.

Lemma array_get_None {A} (a : list A) (i : Z) :
  ~ (0 <= i < len a) -> array_get a i = None.
Proof.
  unfold array_get, len. intros Hi.
  destruct (Z.leb_spec 0 i) as [Hpos | _]; [| reflexivity].
  apply lookup_ge_None. lia.
Qed.

(** A slice from 0 is a prefix, whatever its end. *)
Lemma slice_from_0 {A} (a : list A) (e : Z) :
  slice a 0 e = take (Z.to_nat (slice_bound a e)) a.
Proof.
  unfold slice.
  assert (Hk : slice_bound a 0 = 0).
  { unfold slice_bound. simpl. pose proof (len_nonneg a). lia. }
  rewrite Hk. simpl. rewrite Z.sub_0_r. reflexivity.
Qed.

Lemma slice_bound_in_range {A} (a : list A) (e : Z) :
  0 <= e <= len a -> slice_bound a e = e.
Proof.
  unfold slice_bound. intros He.
  destruct (Z.ltb_spec e 0); lia.
Qed.

Lemma slice_bound_range {A} (a : list A) (e : Z) :
  0 <= slice_bound a e <= len a.
Proof.
  unfold slice_bound. pose proof (len_nonneg a).
  destruct (Z.ltb_spec e 0); lia.
Qed.

Lemma take_len {A} (a : list A) : take (Z.to_nat (len a)) a = a.
Proof. unfold len. rewrite Nat2Z.id. apply firstn_all. Qed.

(** ** Strings *)

Lemma startsWith_app (p s : jsstring) : startsWith (p ++ s) p = true.
Proof.
  induction p as [| c p IH]; simpl; [reflexivity |].
  rewrite N.eqb_refl. exact IH.
Qed.

Section Properties.

Variable new_URL : jsstring -> option URL.

(** ** The state update of /api/visit *)

(** On any state the update keeps a prefix of [pages] and pushes the new
    page behind it. *)
Lemma visit_update_prefix (h : history) (p : page) :
  exists n : nat,
    (n <= length (pages h))%nat /\
    pages (visit_update h p) = take n (pages h) ++ [p].
Proof.
  unfold visit_update, push. simpl.
  destruct (Z.ltb_spec (currentIndex h) (len (pages h) - 1)) as [Hlt | Hge].
  - rewrite slice_from_0.
    pose proof (slice_bound_range (pages h) (currentIndex h + 1)) as Hb.
    exists (Z.to_nat (slice_bound (pages h) (currentIndex h + 1))).
    split; [unfold len in Hb; lia | reflexivity].
  - exists (length (pages h)). split; [lia |].
    rewrite firstn_all. reflexivity.
Qed.

(** On a state that satisfies the invariant the prefix kept is the
    entries up to the cursor. *)
Lemma visit_update_pages (h : history) (p : page) :
  inv h ->
  pages (visit_update h p) =
  take (Z.to_nat (currentIndex h + 1)) (pages h) ++ [p].
Proof.
  unfold inv, visit_update, push. intros Hinv. simpl.
  destruct (Z.ltb_spec (currentIndex h) (len (pages h) - 1)) as [Hlt | Hge].
  - rewrite slice_from_0, slice_bound_in_range by lia. reflexivity.
  - assert (Hc : currentIndex h + 1 = len (pages h)) by lia.
    rewrite Hc, take_len. reflexivity.
Qed.

Lemma visit_update_cursor (h : history) (p : page) :
  currentIndex (visit_update h p) = len (pages (visit_update h p)) - 1.
Proof. reflexivity. Qed.

Lemma visit_update_len (h : history) (p : page) :
  inv h -> len (pages (visit_update h p)) = currentIndex h + 2.
Proof.
  intros Hinv. rewrite visit_update_pages by assumption.
  fold (push (take (Z.to_nat (currentIndex h + 1)) (pages h)) p).
  unfold inv in Hinv. rewrite len_push, len_take by lia. lia.
Qed.

Lemma visit_update_inv (h : history) (p : page) : inv (visit_update h p).
Proof.
  unfold inv. rewrite visit_update_cursor.
  destruct (visit_update_prefix h p) as (n & _ & Hp). rewrite Hp.
  unfold len. rewrite length_app. simpl. lia.
Qed.

Lemma api_visit_accepted (h : history) (raw now : jsstring) :
  accepted new_URL (JString raw) = true ->
  let u := normalizeUrl (trim raw) in
  let h' := visit_update h (newPage new_URL u now) in
  api_visit new_URL h (JString raw) now =
  (h',
   Ok200 {| Data.page := u;
            Data.canGoBack := 0 <? currentIndex h';
            Data.canGoForward := false;
            Data.currentIndex := currentIndex h';
            Data.totalPages := len (pages h') |}
         (Some (lit "Successfully visited: " ++ u))).
Proof.
  unfold accepted, api_visit. destruct raw as [| c raw]; [discriminate |].
  intros Hv. rewrite Hv. reflexivity.
Qed.

Lemma api_visit_rejected (h : history) (body_url : jsvalue) (now : jsstring) :
  accepted new_URL body_url = false ->
  (api_visit new_URL h body_url now).1 = h /\
  ((api_visit new_URL h body_url now).2 = InvalidUrl \/
   (api_visit new_URL h body_url now).2 = InvalidUrl_missing).
Proof.
  unfold accepted, api_visit.
  destruct body_url as [[| c raw] |]; simpl; [auto | | auto].
  intros Hv. rewrite Hv. simpl. auto.
Qed.

Lemma api_visit_inv (h : history) (body_url : jsvalue) (now : jsstring) :
  inv h -> inv (api_visit new_URL h body_url now).1.
Proof.
  intros Hinv. destruct (accepted new_URL body_url) eqn:Hacc.
  - destruct body_url as [raw |]; [| discriminate].
    rewrite api_visit_accepted by assumption. simpl. apply visit_update_inv.
  - destruct (api_visit_rejected h body_url now Hacc) as [Hh _].
    rewrite Hh. assumption.
Qed.

(** ** What /api/back and /api/forward answer *)

Lemma api_back_at_beginning (h : history) :
  currentIndex h <= 0 -> api_back h = (h, AtBeginning).
Proof.
  unfold api_back. intros Hc.
  destruct (Z.leb_spec (currentIndex h) 0); [reflexivity | lia].
Qed.

Lemma api_back_moves (h : history) :
  0 < currentIndex h ->
  (api_back h).1 = {| pages := pages h; currentIndex := currentIndex h - 1 |}.
Proof.
  unfold api_back. intros Hc.
  destruct (Z.leb_spec (currentIndex h) 0); [lia |].
  destruct (array_get _ _); reflexivity.
Qed.

Lemma api_back_ok (h : history) :
  inv h -> 0 < currentIndex h ->
  exists p,
    array_get (pages h) (currentIndex h - 1) = Some p /\
    api_back h =
    ({| pages := pages h; currentIndex := currentIndex h - 1 |},
     Ok200 {| Data.page := url p;
              Data.canGoBack := 0 <? currentIndex h - 1;
              Data.canGoForward := currentIndex h - 1 <? len (pages h) - 1;
              Data.currentIndex := currentIndex h - 1;
              Data.totalPages := len (pages h) |}
           (Some (lit "Went back to: " ++ url p))).
Proof.
  unfold inv, api_back. intros Hinv Hc.
  destruct (Z.leb_spec (currentIndex h) 0); [lia |]. simpl.
  destruct (array_get_Some (pages h) (currentIndex h - 1)) as [p Hp]; [lia |].
  exists p. rewrite Hp. split; reflexivity.
Qed.

Lemma api_forward_at_end (h : history) :
  len (pages h) - 1 <= currentIndex h -> api_forward h = (h, AtEnd).
Proof.
  unfold api_forward. intros Hc.
  destruct (Z.leb_spec (len (pages h) - 1) (currentIndex h)); [reflexivity | lia].
Qed.

Lemma api_forward_moves (h : history) :
  currentIndex h < len (pages h) - 1 ->
  (api_forward h).1 = {| pages := pages h; currentIndex := currentIndex h + 1 |}.
Proof.
  unfold api_forward. intros Hc.
  destruct (Z.leb_spec (len (pages h) - 1) (currentIndex h)); [lia |].
  destruct (array_get _ _); reflexivity.
Qed.

Lemma api_forward_ok (h : history) :
  -1 <= currentIndex h -> currentIndex h < len (pages h) - 1 ->
  exists p,
    array_get (pages h) (currentIndex h + 1) = Some p /\
    api_forward h =
    ({| pages := pages h; currentIndex := currentIndex h + 1 |},
     Ok200 {| Data.page := url p;
              Data.canGoBack := 0 <? currentIndex h + 1;
              Data.canGoForward := currentIndex h + 1 <? len (pages h) - 1;
              Data.currentIndex := currentIndex h + 1;
              Data.totalPages := len (pages h) |}
           (Some (lit "Went forward to: " ++ url p))).
Proof.
  unfold api_forward. intros Hlo Hc.
  destruct (Z.leb_spec (len (pages h) - 1) (currentIndex h)); [lia |]. simpl.
  destruct (array_get_Some (pages h) (currentIndex h + 1)) as [p Hp]; [lia |].
  exists p. rewrite Hp. split; reflexivity.
Qed.

Lemma api_back_inv (h : history) : inv h -> inv (api_back h).1.
Proof.
  intros Hinv. destruct (Z.le_gt_cases (currentIndex h) 0) as [Hle | Hgt].
  - rewrite api_back_at_beginning by assumption. assumption.
  - rewrite api_back_moves by lia. unfold inv in *. simpl. lia.
Qed.

Lemma api_forward_inv (h : history) : inv h -> inv (api_forward h).1.
Proof.
  intros Hinv.
  destruct (Z.le_gt_cases (len (pages h) - 1) (currentIndex h)) as [Hle | Hgt].
  - rewrite api_forward_at_end by assumption. assumption.
  - rewrite api_forward_moves by lia. unfold inv in *. simpl. lia.
Qed.

Lemma inv_empty_means_no_cursor (h : history) :
  inv h -> empty_means_no_cursor h.
Proof.
  unfold inv, empty_means_no_cursor. intros Hinv He.
  rewrite He in Hinv. rewrite len_nil in Hinv. lia.
Qed.

Lemma handle_inv (h : history) (r : request) :
  inv h -> inv (handle new_URL h r).1.
Proof.
  destruct r; simpl; intros Hinv.
  - apply api_visit_inv; assumption.
  - apply api_back_inv; assumption.
  - apply api_forward_inv; assumption.
  - unfold inv. simpl. rewrite len_nil. lia.
Qed.

Lemma states_after_inv (rs : list request) :
  forall h, inv h -> Forall inv (states_after new_URL h rs).
Proof.
  induction rs as [| r rs IH]; intros h Hinv; simpl; constructor.
  - apply handle_inv; assumption.
  - apply IH, handle_inv; assumption.
Qed.

(** C1. Served from the empty initial state, every sequence of visit, back,
    forward and clear requests leaves, after each request, a state with
    [-1 <= currentIndex < pages.length], and with [currentIndex = -1]
    whenever [pages] is empty. *)
Theorem invariant_after_every_request (rs : list request) :
  Forall (fun h => inv h /\ empty_means_no_cursor h)
         (states_after new_URL initial rs).
Proof.
  assert (Hinit : inv initial) by (unfold inv, len; simpl; lia).
  pose proof (states_after_inv rs initial Hinit) as Hall.
  eapply List.Forall_impl; [| exact Hall].
  intros h Hh. split; [exact Hh | apply inv_empty_means_no_cursor, Hh].
Qed.

(** ** Entries kept and entry added by a visit *)

Lemma array_get_prefix_push (a : list page) (p : page) (n i : Z) :
  0 <= i < n -> n <= len a ->
  array_get (push (take (Z.to_nat n) a) p) i = array_get a i.
Proof.
  unfold array_get, push, len. intros Hi Hn.
  destruct (Z.leb_spec 0 i); [| lia].
  rewrite lookup_app_l by (rewrite length_take; lia).
  apply lookup_take_lt. lia.
Qed.

Lemma array_get_push_new (a : list page) (p : page) (n : Z) :
  0 <= n <= len a ->
  array_get (push (take (Z.to_nat n) a) p) n = Some p.
Proof.
  unfold array_get, push, len. intros Hn.
  destruct (Z.leb_spec 0 n); [| lia].
  rewrite lookup_app_r by (rewrite length_take; lia).
  rewrite length_take.
  replace (Z.to_nat n - Z.to_nat n `min` length a)%nat with 0%nat by lia.
  reflexivity.
Qed.

(** C2. On a state that satisfies the invariant, an accepted visit keeps
    exactly the entries at indices up to the cursor, pushes one new entry
    behind them, points the cursor at it (the last index), and answers
    [canGoForward = false]. The new entry is the entry for the normalized
    URL [u]: its [url] is [u], its [timestamp] the time of the request, its
    [title] what [getDomainFromUrl] yields on [u]. *)
Theorem visit_truncates_then_appends (h : history) (raw now : jsstring) :
  inv h ->
  accepted new_URL (JString raw) = true ->
  let u := normalizeUrl (trim raw) in
  let e := {| url := u;
              timestamp := now;
              title := getDomainFromUrl new_URL u |} in
  let h' := (api_visit new_URL h (JString raw) now).1 in
  pages h' = take (Z.to_nat (currentIndex h + 1)) (pages h) ++ [e] /\
  (forall i, 0 <= i <= currentIndex h ->
             array_get (pages h') i = array_get (pages h) i) /\
  array_get (pages h') (currentIndex h + 1) = Some e /\
  array_get (pages h') (currentIndex h') = Some e /\
  len (pages h') = currentIndex h + 2 /\
  currentIndex h' = len (pages h') - 1 /\
  exists d m,
    (api_visit new_URL h (JString raw) now).2 = Ok200 d m /\
    Data.page d = u /\
    Data.canGoForward d = false.
Proof.
  intros Hinv Hacc u e h'. subst h'.
  rewrite (api_visit_accepted h raw now Hacc). cbn [fst snd]. fold u.
  assert (He : newPage new_URL u now = e) by reflexivity.
  rewrite He.
  pose proof (visit_update_pages h e Hinv) as Hp.
  pose proof (visit_update_len h e Hinv) as Hl.
  unfold inv in Hinv.
  split; [exact Hp |].
  split; [intros i Hi; rewrite Hp; apply array_get_prefix_push; lia |].
  split; [rewrite Hp; apply array_get_push_new; lia |].
  split.
  { rewrite visit_update_cursor, Hl.
    replace (currentIndex h + 2 - 1) with (currentIndex h + 1) by lia.
    rewrite Hp. apply array_get_push_new. lia. }
  split; [exact Hl |].
  split; [apply visit_update_cursor |].
  eauto.
Qed.

(** ** Repeated /api/back *)

Lemma back_times_ok (k : nat) :
  forall h, inv h -> Z.of_nat k <= currentIndex h ->
  back_times k h =
  Some {| pages := pages h; currentIndex := currentIndex h - Z.of_nat k |}.
Proof.
  induction k as [| k IH]; intros h Hinv Hk.
  - simpl. rewrite Z.sub_0_r. destruct h; reflexivity.
  - cbn [back_times].
    destruct (api_back_ok h Hinv) as (p & _ & Hb); [lia |].
    rewrite Hb, IH.
    + simpl. do 2 f_equal. lia.
    + unfold inv in *. simpl. lia.
    + simpl. lia.
Qed.

Lemma back_times_Some (k : nat) :
  forall h h1, back_times k h = Some h1 ->
  pages h1 = pages h /\
  currentIndex h1 = currentIndex h - Z.of_nat k /\
  (k = 0%nat \/ Z.of_nat k <= currentIndex h).
Proof.
  induction k as [| k IH]; intros h h1.
  - simpl. intros [= <-]. repeat split; [lia | auto].
  - cbn [back_times]. unfold api_back.
    destruct (Z.leb_spec (currentIndex h) 0) as [Hle | Hgt]; [discriminate |].
    simpl. destruct (array_get _ _); [| discriminate].
    intros Hk. apply IH in Hk. simpl in Hk.
    destruct Hk as (Hp & Hc & Hb). repeat split; [exact Hp | lia | right; lia].
Qed.

(** C3, amended. On a state that satisfies the invariant, after [k >= 1]
    successful calls of back and an accepted visit, [pages] is the original
    [pages] cut after index [currentIndex - k] (the cursor the calls of back
    left), followed by the new entry; every entry that stood behind that
    index is gone. The new entry, at index [currentIndex - k + 1], has the
    normalized URL as [url] and the time of the request as [timestamp]. *)
Theorem truncation_after_back (h : history) (k : nat) (raw now : jsstring) :
  inv h ->
  (1 <= k)%nat ->
  Z.of_nat k <= currentIndex h ->
  accepted new_URL (JString raw) = true ->
  is_Some (back_times k h) /\
  truncation_law_at_moved_cursor new_URL h k raw now /\
  (forall h1, back_times k h = Some h1 ->
     len (pages (api_visit new_URL h1 (JString raw) now).1) =
     currentIndex h - Z.of_nat k + 2) /\
  (forall h1, back_times k h = Some h1 ->
     array_get (pages (api_visit new_URL h1 (JString raw) now).1)
               (currentIndex h - Z.of_nat k + 1) =
     Some {| url := normalizeUrl (trim raw);
             timestamp := now;
             title := getDomainFromUrl new_URL (normalizeUrl (trim raw)) |}).
Proof.
  intros Hinv Hk Hc Hacc.
  pose proof (back_times_ok k h Hinv Hc) as Hb.
  assert (Hinv1 : inv {| pages := pages h;
                         currentIndex := currentIndex h - Z.of_nat k |})
    by (unfold inv in *; simpl; lia).
  split; [rewrite Hb; eauto |].
  split; [| split].
  - intros h1 Hh1. rewrite Hb in Hh1. injection Hh1 as <-.
    rewrite (api_visit_accepted _ raw now Hacc). cbn [fst].
    rewrite visit_update_pages by exact Hinv1. reflexivity.
  - intros h1 Hh1. rewrite Hb in Hh1. injection Hh1 as <-.
    rewrite (api_visit_accepted _ raw now Hacc). cbn [fst].
    rewrite visit_update_len by exact Hinv1. reflexivity.
  - intros h1 Hh1. rewrite Hb in Hh1. injection Hh1 as <-.
    rewrite (api_visit_accepted _ raw now Hacc). cbn [fst].
    rewrite visit_update_pages by exact Hinv1. cbn [pages currentIndex].
    unfold inv in Hinv.
    apply (array_get_push_new (pages h)
             (newPage new_URL (normalizeUrl (trim raw)) now)
             (currentIndex h - Z.of_nat k + 1)).
    lia.
Qed.

(** Under the invariant the two handlers answer either their boundary error
    or 200: the 500 answer needs a cursor outside [pages]. *)
Lemma back_forward_no_500 (h : history) :
  inv h ->
  (0 < currentIndex h -> exists d m, (api_back h).2 = Ok200 d m) /\
  (currentIndex h < len (pages h) - 1 ->
   exists d m, (api_forward h).2 = Ok200 d m).
Proof.
  intros Hinv. split; intros Hc.
  - destruct (api_back_ok h Hinv Hc) as (p & _ & Hb). rewrite Hb. simpl. eauto.
  - destruct (api_forward_ok h) as (p & _ & Hf);
      [unfold inv in Hinv; lia | exact Hc |].
    rewrite Hf. simpl. eauto.
Qed.

(** C4. /api/back answers AtBeginning exactly when [currentIndex <= 0] and
    /api/forward answers AtEnd exactly when
    [currentIndex >= pages.length - 1]; either answer leaves the state as it
    was, and a 200 answer moves the cursor by exactly one (down for back, up
    for forward) over the same [pages]. Under the invariant there is no
    third answer: past its boundary each handler answers 200. *)
Theorem back_forward_boundaries (h : history) :
  (((api_back h).2 = AtBeginning <-> currentIndex h <= 0) /\
   ((api_back h).2 = AtBeginning -> (api_back h).1 = h) /\
   (forall d m, (api_back h).2 = Ok200 d m ->
      currentIndex (api_back h).1 = currentIndex h - 1 /\
      pages (api_back h).1 = pages h) /\
   ((api_forward h).2 = AtEnd <-> len (pages h) - 1 <= currentIndex h) /\
   ((api_forward h).2 = AtEnd -> (api_forward h).1 = h) /\
   (forall d m, (api_forward h).2 = Ok200 d m ->
      currentIndex (api_forward h).1 = currentIndex h + 1 /\
      pages (api_forward h).1 = pages h)) /\
  (inv h ->
   (0 < currentIndex h -> exists d m, (api_back h).2 = Ok200 d m) /\
   (currentIndex h < len (pages h) - 1 ->
    exists d m, (api_forward h).2 = Ok200 d m)).
Proof.
  split; [| apply back_forward_no_500].
  unfold api_back, api_forward.
  destruct (Z.leb_spec (currentIndex h) 0) as [Hb | Hb];
    destruct (Z.leb_spec (len (pages h) - 1) (currentIndex h)) as [Hf | Hf];
    simpl;
    repeat match goal with
           | |- context [array_get ?a ?i] => destruct (array_get a i)
           end;
    simpl; unfold AtBeginning, AtEnd;
    repeat split; intros; try discriminate; try lia; try reflexivity.
Qed.

(** C5. On a state that satisfies the invariant with [currentIndex > 0],
    back answers 200 without touching [pages], and forward right after it
    answers 200 in the state the pair started from: the same [pages], the
    same cursor, and as page the URL of the entry that was current before. *)
Theorem back_then_forward_round_trip (h : history) :
  inv h ->
  0 < currentIndex h ->
  exists h1 d1 m1 d2 m2 p,
    api_back h = (h1, Ok200 d1 m1) /\
    pages h1 = pages h /\
    api_forward h1 = (h, Ok200 d2 m2) /\
    Data.currentIndex d2 = currentIndex h /\
    array_get (pages h) (currentIndex h) = Some p /\
    Data.page d2 = url p /\
    (api_current h).1 = Ok200 d2 None.
Proof.
  intros Hinv Hc.
  destruct (api_back_ok h Hinv Hc) as (q & _ & Hb).
  set (h1 := {| pages := pages h; currentIndex := currentIndex h - 1 |}) in *.
  destruct (api_forward_ok h1) as (p & Hp & Hf);
    [simpl; lia | unfold inv in Hinv; simpl; lia |].
  simpl in Hp, Hf.
  replace (currentIndex h - 1 + 1) with (currentIndex h) in * by lia.
  assert (Hh : {| pages := pages h; currentIndex := currentIndex h |} = h)
    by (destruct h; reflexivity).
  rewrite Hh in Hf.
  eexists h1, _, _, _, _, p.
  split; [exact Hb |]. split; [reflexivity |]. split; [exact Hf |].
  simpl. repeat split; try assumption.
  unfold api_current. unfold inv in Hinv.
  destruct (Z.leb_spec 0 (currentIndex h)); [| lia].
  destruct (Z.ltb_spec (currentIndex h) (len (pages h))); [| lia].
  simpl. rewrite Hp. reflexivity.
Qed.

(** C6. Whatever the state, /api/clear answers 200, leaves [pages = []] and
    [currentIndex = -1], and its data is the empty projection: the one
    /api/current computes on the cleared state. *)
Theorem clear_resets (h : history) :
  (api_clear h).1 = initial /\
  pages (api_clear h).1 = [] /\
  currentIndex (api_clear h).1 = -1 /\
  exists d m,
    (api_clear h).2 = Ok200 d m /\
    d = {| Data.page := lit "";
           Data.canGoBack := false;
           Data.canGoForward := false;
           Data.currentIndex := -1;
           Data.totalPages := 0 |} /\
    (api_current (api_clear h).1).1 = Ok200 d None.
Proof.
  repeat split. do 2 eexists. repeat split.
Qed.

(** ** Validation and normalization of the URL *)

Lemma startsWith_app_l (s p q : jsstring) :
  startsWith s (p ++ q) = true -> startsWith s p = true.
Proof.
  revert s. induction p as [| c p IH]; intros s; simpl; [reflexivity |].
  destruct s as [| d s]; [discriminate |].
  destruct (N.eqb d c); simpl; [apply IH | discriminate].
Qed.

Lemma startsWith_http_scheme (t : jsstring) :
  startsWith t (lit "http://") = true \/
  startsWith t (lit "https://") = true ->
  startsWith t (lit "http") = true.
Proof.
  intros [H | H].
  - apply (startsWith_app_l t (lit "http") (lit "://")). exact H.
  - apply (startsWith_app_l t (lit "http") (lit "s://")). exact H.
Qed.

(** A string that starts with [http] is handed to the constructor as it
    is, also when no [://] follows. *)
Lemma isValidUrl_http_prefix (t : jsstring) :
  startsWith t (lit "http") = true ->
  isValidUrl new_URL t = true <-> is_Some (new_URL t).
Proof.
  unfold isValidUrl. intros ->.
  destruct (new_URL t); split; intros H; try reflexivity; try discriminate.
  - eauto.
  - destruct H as [x Hx]. discriminate.
Qed.

Lemma isValidUrl_no_http_prefix (t : jsstring) :
  startsWith t (lit "http") = false ->
  isValidUrl new_URL t = true <-> is_Some (new_URL (lit "https://" ++ t)).
Proof.
  unfold isValidUrl. intros ->.
  destruct (new_URL _); split; intros H; try reflexivity; try discriminate.
  - eauto.
  - destruct H as [x Hx]. discriminate.
Qed.

Lemma accepted_JString (raw : jsstring) :
  raw <> [] -> accepted new_URL (JString raw) = isValidUrl new_URL (trim raw).
Proof. destruct raw; [congruence | reflexivity]. Qed.

Lemma api_visit_invalid (h : history) (raw now : jsstring) :
  raw <> [] ->
  isValidUrl new_URL (trim raw) = false ->
  api_visit new_URL h (JString raw) now = (h, InvalidUrl).
Proof.
  destruct raw; [congruence |]. intros _ Hv.
  unfold api_visit. rewrite Hv. reflexivity.
Qed.

(** C7, at the input [httpbin.org]. The string has no scheme: it starts
    with neither [http://] nor [https://], and the constructor refuses it as
    it is. With [https://] in front it parses. [isValidUrl] sees the leading
    [http], hands the string over without the prefix, and the visit is
    answered InvalidUrl with the state unchanged. *)
Theorem visit_rejects_host_starting_with_http (h : history) (now : jsstring) :
  new_URL (lit "httpbin.org") = None ->
  is_Some (new_URL (lit "https://httpbin.org")) ->
  startsWith (trim (lit "httpbin.org")) (lit "http://") = false /\
  startsWith (trim (lit "httpbin.org")) (lit "https://") = false /\
  is_Some (new_URL (lit "https://" ++ trim (lit "httpbin.org"))) /\
  accepted new_URL (JString (lit "httpbin.org")) = false /\
  api_visit new_URL h (JString (lit "httpbin.org")) now = (h, InvalidUrl).
Proof.
  intros Hbare Hprefixed.
  assert (Ht : trim (lit "httpbin.org") = lit "httpbin.org") by reflexivity.
  rewrite Ht.
  assert (Hv : isValidUrl new_URL (lit "httpbin.org") = false).
  { unfold isValidUrl.
    change (startsWith (lit "httpbin.org") (lit "http")) with true.
    cbv iota. rewrite Hbare. reflexivity. }
  assert (Hne : lit "httpbin.org" <> []) by (cbv; discriminate).
  repeat split.
  - exact Hprefixed.
  - rewrite accepted_JString, Ht by exact Hne. exact Hv.
  - apply api_visit_invalid; [exact Hne | rewrite Ht; exact Hv].
Qed.

(** X17. For an accepted request the address of the visit (the page of the
    answer and the URL of the entry pushed last) is [normalizeUrl] of the
    trimmed input: the trimmed input behind [https://] when it starts with
    neither [http://] nor [https://], so that it starts with [https://];
    the trimmed input itself when it starts with one of the two. *)
Theorem normalized_address (h : history) (raw now : jsstring) :
  accepted new_URL (JString raw) = true ->
  let t := trim raw in
  let u := normalizeUrl t in
  (exists h' d m e,
     api_visit new_URL h (JString raw) now = (h', Ok200 d m) /\
     Data.page d = u /\
     array_get (pages h') (currentIndex h') = Some e /\
     url e = u) /\
  (startsWith t (lit "http://") = false ->
   startsWith t (lit "https://") = false ->
   u = lit "https://" ++ t /\ startsWith u (lit "https://") = true) /\
  (startsWith t (lit "http://") = true \/
   startsWith t (lit "https://") = true ->
   u = t).
Proof.
  intros Hacc t u. split; [| split].
  - rewrite (api_visit_accepted h raw now Hacc). fold t. fold u.
    destruct (visit_update_prefix h (newPage new_URL u now)) as (n & _ & Hp).
    do 3 eexists. exists (newPage new_URL u now).
    split; [reflexivity |]. split; [reflexivity |].
    split; [| reflexivity].
    rewrite visit_update_cursor, Hp. unfold array_get, len.
    rewrite length_app. simpl.
    destruct (Z.leb_spec 0 (Z.of_nat (length (take n (pages h)) + 1) - 1));
      [| lia].
    apply list_lookup_middle. lia.
  - intros H1 H2. subst u. unfold normalizeUrl. rewrite H1, H2.
    cbn [negb andb]. split; [reflexivity | apply startsWith_app].
  - intros H. subst u. unfold normalizeUrl.
    destruct H as [H | H]; rewrite H; cbn [negb].
    + reflexivity.
    + rewrite Bool.andb_false_r. reflexivity.
Qed.

(** C8, at the input [httpbin.org]. The trimmed input starts with neither
    [http://] nor [https://], and with [https://] in front it parses: it is
    a valid input that lacks a scheme, and the normalization of lines
    130-136 would turn it into [https://httpbin.org]. The handler never gets
    there: [isValidUrl] hands the bare string to the constructor, the answer
    is InvalidUrl, and no entry with that address (nor any other) is
    stored. *)
Theorem scheme_less_http_host_gets_no_address (h : history) (now : jsstring) :
  new_URL (lit "httpbin.org") = None ->
  is_Some (new_URL (lit "https://httpbin.org")) ->
  let t := trim (lit "httpbin.org") in
  startsWith t (lit "http://") = false /\
  startsWith t (lit "https://") = false /\
  normalizeUrl t = lit "https://httpbin.org" /\
  startsWith (normalizeUrl t) (lit "https://") = true /\
  is_Some (new_URL (normalizeUrl t)) /\
  (api_visit new_URL h (JString (lit "httpbin.org")) now).2 = InvalidUrl /\
  (api_visit new_URL h (JString (lit "httpbin.org")) now).1 = h /\
  (forall d m,
     (api_visit new_URL h (JString (lit "httpbin.org")) now).2 <> Ok200 d m).
Proof.
  intros Hbare Hprefixed t.
  assert (Ht : t = lit "httpbin.org") by reflexivity.
  assert (Hu : normalizeUrl t = lit "https://httpbin.org") by reflexivity.
  assert (Hv : isValidUrl new_URL (lit "httpbin.org") = false).
  { unfold isValidUrl.
    change (startsWith (lit "httpbin.org") (lit "http")) with true.
    cbv iota. rewrite Hbare. reflexivity. }
  assert (Hne : lit "httpbin.org" <> []) by (cbv; discriminate).
  assert (Hrej : api_visit new_URL h (JString (lit "httpbin.org")) now
                 = (h, InvalidUrl)).
  { apply api_visit_invalid; [exact Hne |].
    change (trim (lit "httpbin.org")) with (lit "httpbin.org"). exact Hv. }
  rewrite Hrej, Hu.
  split; [reflexivity |]. split; [reflexivity |]. split; [reflexivity |].
  split; [reflexivity |]. split; [exact Hprefixed |].
  split; [reflexivity |]. split; [reflexivity |].
  intros d m. discriminate.
Qed.

(** ** Frame *)

(** C9. Back and forward never change [pages], whatever they answer. A
    visit either leaves the whole state as it was (the request is refused)
    or splits [pages] into the entries it keeps and the suffix it drops, and
    yields the kept entries, unchanged and in order, followed by exactly one
    new entry; under the invariant the kept entries are those up to the
    cursor. *)
Theorem entries_frame (h : history) :
  pages (api_back h).1 = pages h /\
  pages (api_forward h).1 = pages h /\
  forall body_url now,
    (api_visit new_URL h body_url now).1 = h \/
    exists kept dropped p,
      pages h = kept ++ dropped /\
      pages (api_visit new_URL h body_url now).1 = kept ++ [p] /\
      (inv h -> len kept = currentIndex h + 1).
Proof.
  split; [| split].
  - unfold api_back. destruct (currentIndex h <=? 0); [reflexivity |].
    simpl. destruct (array_get _ _); reflexivity.
  - unfold api_forward.
    destruct (len (pages h) - 1 <=? currentIndex h); [reflexivity |].
    simpl. destruct (array_get _ _); reflexivity.
  - intros body_url now. destruct (accepted new_URL body_url) eqn:Hacc.
    + right. destruct body_url as [raw |]; [| discriminate].
      rewrite (api_visit_accepted h raw now Hacc). cbn [fst].
      set (p := newPage _ _ _).
      destruct (visit_update_prefix h p) as (n & Hn & Hp).
      exists (take n (pages h)), (drop n (pages h)), p.
      split; [symmetry; apply take_drop |]. split; [exact Hp |].
      intros Hinv. pose proof (visit_update_pages h p Hinv) as Hq.
      rewrite Hp in Hq. apply app_inj_tail in Hq as [Hq _].
      rewrite Hq. unfold inv in Hinv. apply len_take. lia.
    + left. apply api_visit_rejected. exact Hacc.
Qed.

(** ** The projection of /api/current *)

(** Every index the handler reads lies inside [pages]. *)
Lemma api_current_reads_in_range (h : history) (i : Z) :
  In i (api_current h).2 -> 0 <= i < len (pages h).
Proof.
  unfold api_current.
  destruct (Z.leb_spec 0 (currentIndex h));
    destruct (Z.ltb_spec (currentIndex h) (len (pages h)));
    simpl; intros Hi; try contradiction.
  destruct Hi as [<- | []]. lia.
Qed.

(** The handler answers 200 on every state. *)
Lemma api_current_total (h : history) :
  exists d, (api_current h).1 = Ok200 d None.
Proof.
  unfold api_current. destruct (_ && _); simpl; eauto.
Qed.

(** C10. On a state whose cursor is outside [0 .. pages.length - 1]
    (the empty cursor -1, or a cursor at or past the length, as a snapshot
    read from the file may hold) /api/current reads no entry of [pages] and
    answers 200 with the empty string as page, [canGoBack] computed as
    [currentIndex > 0] and [canGoForward] as
    [currentIndex < pages.length - 1]. *)
Theorem current_outside_range (h : history) :
  ~ (0 <= currentIndex h < len (pages h)) ->
  api_current h =
  (Ok200 {| Data.page := lit "";
            Data.canGoBack := 0 <? currentIndex h;
            Data.canGoForward := currentIndex h <? len (pages h) - 1;
            Data.currentIndex := currentIndex h;
            Data.totalPages := len (pages h) |} None,
   []).
Proof.
  unfold api_current. intros Hout.
  destruct (Z.leb_spec 0 (currentIndex h));
    destruct (Z.ltb_spec (currentIndex h) (len (pages h)));
    simpl; try reflexivity.
  lia.
Qed.

End Properties.

(** ** The handlers on concrete requests *)

(** The scenarios of the specification. *)
Example scenario_first_visit :
  api_visit sample_URL initial (JString (lit "example.com")) t0 =
  ({| pages := [entry "example.com"]; currentIndex := 0 |},
   Ok200 {| Data.page := lit "https://example.com";
            Data.canGoBack := false;
            Data.canGoForward := false;
            Data.currentIndex := 0;
            Data.totalPages := 1 |}
         (Some (lit "Successfully visited: https://example.com"))).
Proof. reflexivity. Qed.

Example scenario_visit_visit_back :
  states_after sample_URL initial
    [Visit (JString (lit "a.com")) t0; Visit (JString (lit "b.com")) t0; Back] =
  [ {| pages := [entry "a.com"]; currentIndex := 0 |};
    {| pages := [entry "a.com"; entry "b.com"]; currentIndex := 1 |};
    {| pages := [entry "a.com"; entry "b.com"]; currentIndex := 0 |} ] /\
  (api_current {| pages := [entry "a.com"; entry "b.com"];
                  currentIndex := 0 |}).1 =
  Ok200 {| Data.page := lit "https://a.com";
           Data.canGoBack := false;
           Data.canGoForward := true;
           Data.currentIndex := 0;
           Data.totalPages := 2 |} None.
Proof. split; reflexivity. Qed.

Example scenario_visit_after_back :
  states_after sample_URL initial
    [Visit (JString (lit "a.com")) t0; Visit (JString (lit "b.com")) t0; Back;
     Visit (JString (lit "c.com")) t0] =
  [ {| pages := [entry "a.com"]; currentIndex := 0 |};
    {| pages := [entry "a.com"; entry "b.com"]; currentIndex := 1 |};
    {| pages := [entry "a.com"; entry "b.com"]; currentIndex := 0 |};
    {| pages := [entry "a.com"; entry "c.com"]; currentIndex := 1 |} ].
Proof. reflexivity. Qed.

Example scenario_empty_boundaries :
  api_back initial = (initial, AtBeginning) /\
  api_forward initial = (initial, AtEnd).
Proof. split; reflexivity. Qed.

(** Back on a state whose cursor lies past the end of [pages] (such a state
    can only come from the file read at startup): the cursor is decremented
    and the answer is 500. *)
Example back_outside_pages :
  api_back {| pages := []; currentIndex := 5 |} =
  ({| pages := []; currentIndex := 4 |},
   Err500 "Internal server error while going back").
Proof. reflexivity. Qed.

(** *** Instances of the theorems *)

(** From a.com, b.com, c.com with the cursor on a.com, a visit of d.com
    leaves a.com, d.com. *)
Lemma visit_truncates_then_appends_witness :
  inv (three_pages_at 0) /\
  accepted sample_URL (JString (lit " d.com ")) = true /\
  pages (api_visit sample_URL (three_pages_at 0)
           (JString (lit " d.com ")) t0).1 =
  [entry "a.com";
   {| url := lit "https://d.com"; timestamp := t0; title := lit "d.com" |}].
Proof.
  assert (Hi : inv (three_pages_at 0)) by (unfold inv, len; simpl; lia).
  assert (Ha : accepted sample_URL (JString (lit " d.com ")) = true)
    by reflexivity.
  split; [exact Hi |]. split; [exact Ha |].
  pose proof (visit_truncates_then_appends sample_URL
                (three_pages_at 0) (lit " d.com ") t0 Hi Ha) as H.
  cbv zeta in H. destruct H as [Hp _]. rewrite Hp. reflexivity.
Defined.

(** From a.com, b.com, c.com with the cursor on c.com, two calls of back
    and a visit of d.com leave a.com, d.com. *)
Lemma truncation_after_back_witness :
  inv (three_pages_at 2) /\
  back_times 2 (three_pages_at 2) = Some (three_pages_at 0) /\
  pages (api_visit sample_URL (three_pages_at 0)
           (JString (lit "d.com")) t0).1 =
  [entry "a.com";
   {| url := lit "https://d.com"; timestamp := t0; title := lit "d.com" |}].
Proof.
  assert (Hi : inv (three_pages_at 2)) by (unfold inv, len; simpl; lia).
  assert (Hk : (1 <= 2)%nat) by lia.
  assert (Hc : Z.of_nat 2 <= currentIndex (three_pages_at 2))
    by (simpl; lia).
  assert (Ha : accepted sample_URL (JString (lit "d.com")) = true)
    by reflexivity.
  assert (Hb : back_times 2 (three_pages_at 2) = Some (three_pages_at 0))
    by reflexivity.
  split; [exact Hi |]. split; [exact Hb |].
  destruct (truncation_after_back sample_URL (three_pages_at 2) 2
              (lit "d.com") t0 Hi Hk Hc Ha) as (_ & Hlaw & _ & _).
  rewrite (Hlaw _ Hb). reflexivity.
Defined.

(** C3 as stated fails. From a.com, b.com, c.com with the cursor on c.com,
    two calls of back and a visit of d.com leave a.com, d.com. Cutting the
    original entries at the cursor held before the calls of back would leave
    a.com, b.com, c.com, d.com (the entry at the cursor kept) or a.com,
    b.com, d.com (the entry at the cursor dropped). *)
Lemma truncation_at_original_cursor_fails :
  inv (three_pages_at 2) /\
  accepted sample_URL (JString (lit "d.com")) = true /\
  back_times 2 (three_pages_at 2) = Some (three_pages_at 0) /\
  pages (api_visit sample_URL (three_pages_at 0)
           (JString (lit "d.com")) t0).1 =
    [entry "a.com"; entry "d.com"] /\
  ~ truncation_law_at_original_cursor sample_URL
      (currentIndex (three_pages_at 2) + 1)
      (three_pages_at 2) 2 (lit "d.com") t0 /\
  ~ truncation_law_at_original_cursor sample_URL
      (currentIndex (three_pages_at 2))
      (three_pages_at 2) 2 (lit "d.com") t0.
Proof.
  split; [unfold inv, len; simpl; lia |].
  do 3 (split; [reflexivity |]).
  split; intros Hlaw;
    specialize (Hlaw (three_pages_at 0) eq_refl);
    vm_compute in Hlaw; discriminate Hlaw.
Qed.

(** Back and forward from the cursor on c.com. *)
Lemma back_then_forward_round_trip_witness :
  inv (three_pages_at 2) /\
  0 < currentIndex (three_pages_at 2) /\
  (api_back (three_pages_at 2)).1 = three_pages_at 1 /\
  (api_forward (three_pages_at 1)).1 = three_pages_at 2.
Proof.
  assert (Hi : inv (three_pages_at 2)) by (unfold inv, len; simpl; lia).
  assert (Hc : 0 < currentIndex (three_pages_at 2)) by (simpl; lia).
  split; [exact Hi |]. split; [exact Hc |].
  destruct (back_then_forward_round_trip (three_pages_at 2) Hi Hc)
    as (h1 & d1 & m1 & d2 & m2 & p & Hb & _ & Hf & _).
  assert (Hh1 : h1 = three_pages_at 1)
    by (apply (f_equal fst) in Hb; symmetry; exact Hb).
  subst h1. rewrite Hf. split; reflexivity.
Defined.

(** [sample_URL] refuses the bare host and accepts it behind [https://]. *)
Lemma visit_rejects_host_starting_with_http_witness :
  sample_URL (lit "httpbin.org") = None /\
  is_Some (sample_URL (lit "https://httpbin.org")) /\
  api_visit sample_URL initial (JString (lit "httpbin.org")) t0 =
  (initial, InvalidUrl).
Proof.
  assert (Hbare : sample_URL (lit "httpbin.org") = None) by reflexivity.
  assert (Hprefixed : is_Some (sample_URL (lit "https://httpbin.org")))
    by (eexists; reflexivity).
  split; [exact Hbare |]. split; [exact Hprefixed |].
  apply (visit_rejects_host_starting_with_http sample_URL initial t0
           Hbare Hprefixed).
Defined.

(** A scheme-less host with blanks around it. *)
Lemma normalized_address_witness :
  accepted sample_URL (JString (lit "  example.com ")) = true /\
  normalizeUrl (trim (lit "  example.com ")) = lit "https://example.com" /\
  startsWith (normalizeUrl (trim (lit "  example.com "))) (lit "https://")
  = true.
Proof.
  assert (Ha : accepted sample_URL (JString (lit "  example.com ")) = true)
    by reflexivity.
  split; [exact Ha |].
  pose proof (normalized_address sample_URL initial
                (lit "  example.com ") t0 Ha) as H.
  cbv zeta in H. destruct H as (_ & Hno_scheme & _).
  destruct Hno_scheme as [Hu Hs]; [reflexivity | reflexivity |].
  split; [rewrite Hu; reflexivity | exact Hs].
Defined.

(** One entry and the cursor at 5. *)
Lemma current_outside_range_witness :
  ~ (0 <= 5 < len [entry "a.com"]) /\
  api_current {| pages := [entry "a.com"]; currentIndex := 5 |} =
  (Ok200 {| Data.page := lit "";
            Data.canGoBack := true;
            Data.canGoForward := false;
            Data.currentIndex := 5;
            Data.totalPages := 1 |} None,
   []).
Proof.
  assert (Hout : ~ (0 <= 5 < len [entry "a.com"]))
    by (unfold len; simpl; lia).
  split; [exact Hout |].
  apply (current_outside_range
           {| pages := [entry "a.com"]; currentIndex := 5 |} Hout).
Defined.

(** * Further properties of the handlers *)

Lemma array_get_Some_range {A} (a : list A) (i : Z) (x : A) :
  array_get a i = Some x -> 0 <= i < len a.
Proof.
  unfold array_get, len. destruct (Z.leb_spec 0 i) as [Hi | Hi]; [| discriminate].
  intros Hx. apply lookup_lt_Some in Hx. lia.
Qed.

Lemma array_get_last_push {A} (a : list A) (x : A) :
  array_get (a ++ [x]) (len (a ++ [x]) - 1) = Some x.
Proof.
  unfold array_get, len. rewrite length_app. simpl.
  destruct (Z.leb_spec 0 (Z.of_nat (length a + 1) - 1)); [| lia].
  apply list_lookup_middle. lia.
Qed.

Section Composition.

Variable new_URL : jsstring -> option URL.

(** ** The cursor of a reachable state *)

Lemma handle_cursor_on_entry (h : history) (r : request) :
  cursor_on_entry h -> cursor_on_entry (handle new_URL h r).1.
Proof.
  unfold cursor_on_entry. intros Hc. destruct r as [body now | | |]; simpl.
  - destruct (accepted new_URL body) eqn:Hacc.
    + destruct body as [raw |]; [| discriminate].
      rewrite (api_visit_accepted new_URL h raw now Hacc). cbn [fst].
      right. rewrite visit_update_cursor.
      destruct (visit_update_prefix h (newPage new_URL (normalizeUrl (trim raw)) now))
        as (n & _ & Hp).
      rewrite Hp. unfold len. rewrite length_app. simpl. lia.
    + destruct (api_visit_rejected new_URL h body now Hacc) as [-> _]. exact Hc.
  - destruct (Z.le_gt_cases (currentIndex h) 0) as [Hle | Hgt].
    + rewrite api_back_at_beginning by assumption. exact Hc.
    + rewrite api_back_moves by lia. simpl. right.
      destruct Hc as [[_ Hc] | Hc]; lia.
  - destruct (Z.le_gt_cases (len (pages h) - 1) (currentIndex h)) as [Hle | Hgt].
    + rewrite api_forward_at_end by assumption. exact Hc.
    + rewrite api_forward_moves by lia. simpl. right.
      destruct Hc as [[Hp Hc] | Hc]; [| lia].
      rewrite Hp in Hgt. unfold len in Hgt. simpl in Hgt. lia.
  - left. split; reflexivity.
Qed.

Lemma states_after_cursor_on_entry (rs : list request) :
  forall h, cursor_on_entry h ->
  Forall cursor_on_entry (states_after new_URL h rs).
Proof.
  induction rs as [| r rs IH]; intros h Hc; simpl; constructor.
  - apply handle_cursor_on_entry; assumption.
  - apply IH, handle_cursor_on_entry; assumption.
Qed.

(** X1. In every state reached from the initial one the cursor is -1
    exactly when [pages] is empty; otherwise it is the index of an entry. *)
Theorem reachable_cursor_on_entry (rs : list request) :
  Forall (fun h => (currentIndex h = -1 <-> pages h = []) /\
                   (pages h <> [] -> 0 <= currentIndex h < len (pages h)))
         (states_after new_URL initial rs).
Proof.
  assert (Hinit : cursor_on_entry initial) by (left; split; reflexivity).
  pose proof (states_after_cursor_on_entry rs initial Hinit) as Hall.
  eapply List.Forall_impl; [| exact Hall].
  intros h [[Hp Hc] | Hc].
  - split; [tauto | intros Hne; contradiction].
  - split; [| intros _; exact Hc].
    split; [lia |]. intros Hp. rewrite Hp in Hc. unfold len in Hc. simpl in Hc. lia.
Qed.

(** ** A visit on any state *)

(** X2. An accepted visit restores the invariant from any state, also one
    whose cursor lies outside [pages]: afterwards the cursor is on the last
    entry, that entry is the new one (its [url] the normalized URL, its
    [timestamp] the time of the request), and forward answers AtEnd without
    changing the state. A cursor at or past the last index drops nothing. *)
Theorem visit_from_any_state (h : history) (raw now : jsstring) :
  accepted new_URL (JString raw) = true ->
  let e := newPage new_URL (normalizeUrl (trim raw)) now in
  let h' := (api_visit new_URL h (JString raw) now).1 in
  inv h' /\
  0 <= currentIndex h' /\
  currentIndex h' = len (pages h') - 1 /\
  array_get (pages h') (currentIndex h') = Some e /\
  url e = normalizeUrl (trim raw) /\
  timestamp e = now /\
  api_forward h' = (h', AtEnd) /\
  (len (pages h) - 1 <= currentIndex h -> pages h' = pages h ++ [e]).
Proof.
  intros Hacc e h'. subst h'.
  rewrite (api_visit_accepted new_URL h raw now Hacc). cbn [fst]. fold e.
  destruct (visit_update_prefix h e) as (n & _ & Hp).
  assert (Hlen : len (pages (visit_update h e)) = Z.of_nat n `min` len (pages h) + 1).
  { rewrite Hp. unfold len. rewrite length_app, length_take. simpl. lia. }
  pose proof (len_nonneg (pages h)) as Hnn.
  split; [apply visit_update_inv |].
  split; [rewrite visit_update_cursor; lia |].
  split; [apply visit_update_cursor |].
  split; [rewrite visit_update_cursor, Hp; apply array_get_last_push |].
  split; [reflexivity |]. split; [reflexivity |].
  split; [apply api_forward_at_end; rewrite visit_update_cursor; lia |].
  intros Hend. unfold visit_update, push. simpl.
  destruct (Z.ltb_spec (currentIndex h) (len (pages h) - 1)); [lia | reflexivity].
Qed.

(** ** What the answers say about the state *)

(** X3. Whatever the handler and the state, the [data] of a 200 answer is
    the [data] /api/current computes on the state the handler leaves. *)
Theorem answer_is_current_projection
    (h : history) (r : request) (d : Data.t) (m : option jsstring) :
  (handle new_URL h r).2 = Ok200 d m ->
  (api_current (handle new_URL h r).1).1 = Ok200 d None.
Proof.
  destruct r as [body now | | |]; simpl.
  - destruct (accepted new_URL body) eqn:Hacc.
    + destruct body as [raw |]; [| discriminate].
      rewrite (api_visit_accepted new_URL h raw now Hacc). cbn [fst snd].
      set (e := newPage new_URL (normalizeUrl (trim raw)) now).
      intros [= <- _].
      destruct (visit_update_prefix h e) as (n & _ & Hp).
      pose proof (len_nonneg (take n (pages h))) as Hnn.
      assert (Hlen : len (pages (visit_update h e)) = len (take n (pages h)) + 1).
      { rewrite Hp. unfold len. rewrite length_app. simpl. lia. }
      assert (He : array_get (pages (visit_update h e))
                     (currentIndex (visit_update h e)) = Some e).
      { rewrite visit_update_cursor, Hp. apply array_get_last_push. }
      unfold api_current. rewrite He. rewrite visit_update_cursor.
      destruct (Z.leb_spec 0 (len (pages (visit_update h e)) - 1)); [| lia].
      destruct (Z.ltb_spec (len (pages (visit_update h e)) - 1)
                           (len (pages (visit_update h e)))); [| lia].
      simpl. rewrite Z.ltb_irrefl. reflexivity.
    + destruct (api_visit_rejected new_URL h body now Hacc) as [_ [-> | ->]];
        discriminate.
  - unfold api_back. destruct (currentIndex h <=? 0); [discriminate |].
    simpl. destruct (array_get _ _) as [p |] eqn:Hp; [| discriminate].
    simpl. intros [= <- _]. apply array_get_Some_range in Hp as Hr.
    unfold api_current. simpl. rewrite Hp.
    destruct (Z.leb_spec 0 (currentIndex h - 1)); [| lia].
    destruct (Z.ltb_spec (currentIndex h - 1) (len (pages h))); [| lia].
    reflexivity.
  - unfold api_forward.
    destruct (len (pages h) - 1 <=? currentIndex h); [discriminate |].
    simpl. destruct (array_get _ _) as [p |] eqn:Hp; [| discriminate].
    simpl. intros [= <- _]. apply array_get_Some_range in Hp as Hr.
    unfold api_current. simpl. rewrite Hp.
    destruct (Z.leb_spec 0 (currentIndex h + 1)); [| lia].
    destruct (Z.ltb_spec (currentIndex h + 1) (len (pages h))); [| lia].
    reflexivity.
  - intros [= <- _]. reflexivity.
Qed.

(** X4. Under the invariant the two flags of /api/current tell what the
    next request will get: [canGoBack] is true exactly when back answers
    200, [canGoForward] exactly when forward answers 200. *)
Theorem flags_predict_answers (h : history) :
  inv h ->
  exists d,
    (api_current h).1 = Ok200 d None /\
    (Data.canGoBack d = true <-> exists d' m, (api_back h).2 = Ok200 d' m) /\
    (Data.canGoForward d = true <->
     exists d' m, (api_forward h).2 = Ok200 d' m).
Proof.
  intros Hinv. destruct (api_current_total h) as [d Hd].
  exists d. split; [exact Hd |].
  assert (Hb : Data.canGoBack d = (0 <? currentIndex h)).
  { unfold api_current in Hd. destruct (_ && _); simpl in Hd;
      injection Hd as <-; reflexivity. }
  assert (Hf : Data.canGoForward d = (currentIndex h <? len (pages h) - 1)).
  { unfold api_current in Hd. destruct (_ && _); simpl in Hd;
      injection Hd as <-; reflexivity. }
  rewrite Hb, Hf. destruct (back_forward_no_500 h Hinv) as [Hback Hfwd].
  split; split.
  - intros H. apply Z.ltb_lt in H. apply Hback, H.
  - intros (d' & m & H). apply Z.ltb_lt.
    destruct (Z.le_gt_cases (currentIndex h) 0) as [Hle | Hgt]; [| lia].
    rewrite api_back_at_beginning in H by assumption. discriminate.
  - intros H. apply Z.ltb_lt in H. apply Hfwd, H.
  - intros (d' & m & H). apply Z.ltb_lt.
    destruct (Z.le_gt_cases (len (pages h) - 1) (currentIndex h)) as [Hle | Hgt];
      [| lia].
    rewrite api_forward_at_end in H by assumption. discriminate.
Qed.

(** X5. A request answered with status 400 leaves [browserHistory] exactly
    as it was, whichever handler served it. *)
Theorem bad_request_leaves_state (h : history) (r : request) (e : string) :
  (handle new_URL h r).2 = Err400 e -> (handle new_URL h r).1 = h.
Proof.
  destruct r as [body now | | |]; simpl.
  - destruct (accepted new_URL body) eqn:Hacc.
    + destruct body as [raw |]; [| discriminate].
      rewrite (api_visit_accepted new_URL h raw now Hacc). discriminate.
    + intros _. apply api_visit_rejected. exact Hacc.
  - unfold api_back. destruct (currentIndex h <=? 0); [reflexivity |].
    simpl. destruct (array_get _ _); discriminate.
  - unfold api_forward.
    destruct (len (pages h) - 1 <=? currentIndex h); [reflexivity |].
    simpl. destruct (array_get _ _); discriminate.
  - discriminate.
Qed.


(** What an accepted visit keeps, under the invariant. *)
Lemma accepted_visit_keeps (h : history) (raw now : jsstring) :
  inv h ->
  accepted new_URL (JString raw) = true ->
  let h' := (api_visit new_URL h (JString raw) now).1 in
  (forall i, 0 <= i <= currentIndex h ->
             array_get (pages h') i = array_get (pages h) i) /\
  len (pages h') = currentIndex h + 2 /\
  currentIndex h' = currentIndex h + 1.
Proof.
  intros Hinv Hacc h'. subst h'.
  rewrite (api_visit_accepted new_URL h raw now Hacc). cbn [fst].
  set (e := newPage new_URL (normalizeUrl (trim raw)) now).
  pose proof (visit_update_pages h e Hinv) as Hp.
  pose proof (visit_update_len h e Hinv) as Hl.
  unfold inv in Hinv. split; [| split].
  - intros i Hi. rewrite Hp. apply array_get_prefix_push; lia.
  - exact Hl.
  - rewrite visit_update_cursor, Hl. lia.
Qed.

(** ** Round trips *)

(** X7. Forward and then back. Under the invariant, from a cursor on an
    entry that is not the last, forward answers 200 and back right after it
    answers 200 in the state the pair started from. From the cursor -1 over
    a non-empty [pages] forward answers 200 as well, but back then answers
    AtBeginning and the cursor stays at 0. *)
Theorem forward_then_back (h : history) :
  inv h ->
  currentIndex h < len (pages h) - 1 ->
  (0 <= currentIndex h ->
   exists h1 d1 m1 d2 m2,
     api_forward h = (h1, Ok200 d1 m1) /\
     api_back h1 = (h, Ok200 d2 m2) /\
     (api_current h).1 = Ok200 d2 None) /\
  (currentIndex h = -1 ->
   exists d1 m1,
     api_forward h =
       ({| pages := pages h; currentIndex := 0 |}, Ok200 d1 m1) /\
     api_back {| pages := pages h; currentIndex := 0 |} =
       ({| pages := pages h; currentIndex := 0 |}, AtBeginning)).
Proof.
  intros Hinv Hc. unfold inv in Hinv. split.
  - intros Hpos.
    destruct (api_forward_ok h) as (p & _ & Hf); [lia | exact Hc |].
    set (h1 := {| pages := pages h; currentIndex := currentIndex h + 1 |}) in *.
    assert (Hinv1 : inv h1) by (unfold inv; simpl; lia).
    destruct (api_back_ok h1 Hinv1) as (q & Hq & Hb); [simpl; lia |].
    simpl in Hq, Hb.
    replace (currentIndex h + 1 - 1) with (currentIndex h) in * by lia.
    assert (Hh : {| pages := pages h; currentIndex := currentIndex h |} = h)
      by (destruct h; reflexivity).
    rewrite Hh in Hb.
    eexists h1, _, _, _, _. split; [exact Hf |]. split; [exact Hb |].
    unfold api_current.
    destruct (Z.leb_spec 0 (currentIndex h)); [| lia].
    destruct (Z.ltb_spec (currentIndex h) (len (pages h))); [| lia].
    simpl. rewrite Hq. reflexivity.
  - intros Hm1.
    destruct (api_forward_ok h) as (p & _ & Hf); [lia | exact Hc |].
    rewrite Hm1 in Hf. simpl in Hf. do 2 eexists. split; [exact Hf |].
    apply api_back_at_beginning. simpl. lia.
Qed.

Lemma forward_times_ok (k : nat) :
  forall h, -1 <= currentIndex h ->
  currentIndex h + Z.of_nat k <= len (pages h) - 1 ->
  forward_times k h =
  Some {| pages := pages h; currentIndex := currentIndex h + Z.of_nat k |}.
Proof.
  induction k as [| k IH]; intros h Hlo Hk.
  - simpl. rewrite Z.add_0_r. destruct h; reflexivity.
  - cbn [forward_times].
    destruct (api_forward_ok h Hlo) as (p & _ & Hf); [lia |].
    rewrite Hf, IH.
    + simpl. do 2 f_equal. lia.
    + simpl. lia.
    + simpl. lia.
Qed.

Lemma forward_times_Some (k : nat) :
  forall h h1, forward_times k h = Some h1 ->
  pages h1 = pages h /\
  currentIndex h1 = currentIndex h + Z.of_nat k /\
  (k = 0%nat \/
   (-1 <= currentIndex h /\ currentIndex h + Z.of_nat k <= len (pages h) - 1)).
Proof.
  induction k as [| k IH]; intros h h1.
  - simpl. intros [= <-]. repeat split; [lia | auto].
  - cbn [forward_times]. unfold api_forward.
    destruct (Z.leb_spec (len (pages h) - 1) (currentIndex h)) as [Hle | Hgt];
      [discriminate |].
    simpl. destruct (array_get _ _) eqn:Hp; [| discriminate].
    apply array_get_Some_range in Hp.
    intros Hk. apply IH in Hk. simpl in Hk.
    destruct Hk as (Hq & Hc & Hb). repeat split; [exact Hq | lia | right; lia].
Qed.

(** X8. Under the invariant, [k] successful calls of back followed by [k]
    calls of forward all answer 200 and return exactly the starting state;
    so do [k] successful calls of forward followed by [k] of back when the
    starting cursor is on an entry. *)
Theorem back_forward_times_round_trip (h : history) (k : nat) :
  inv h ->
  (forall h1, back_times k h = Some h1 -> forward_times k h1 = Some h) /\
  (0 <= currentIndex h ->
   forall h1, forward_times k h = Some h1 -> back_times k h1 = Some h).
Proof.
  intros Hinv. unfold inv in Hinv. split.
  - intros h1 Hb. apply back_times_Some in Hb as (Hp & Hc & Hk).
    destruct Hk as [-> | Hk].
    + simpl in *. f_equal. destruct h, h1; simpl in *. subst. f_equal. lia.
    + rewrite forward_times_ok by (rewrite ?Hp; lia).
      f_equal. destruct h; simpl in *. rewrite Hp, Hc. f_equal. lia.
  - intros Hpos h1 Hf. apply forward_times_Some in Hf as (Hp & Hc & Hk).
    destruct Hk as [-> | Hk].
    + simpl in *. f_equal. destruct h, h1; simpl in *. subst. f_equal. lia.
    + rewrite back_times_ok by (unfold inv; rewrite ?Hp; lia).
      f_equal. destruct h; simpl in *. rewrite Hp, Hc. f_equal. lia.
Qed.

(** X9. A visit and then back. Under the invariant, after an accepted
    visit from a cursor on an entry, back answers 200 with the page that was
    current before the visit, reports [canGoForward], and forward from there
    returns to the state the visit left. After the first visit (cursor -1)
    back answers AtBeginning. *)
Theorem visit_then_back (h : history) (raw now : jsstring) :
  inv h ->
  accepted new_URL (JString raw) = true ->
  let h' := (api_visit new_URL h (JString raw) now).1 in
  (currentIndex h = -1 -> api_back h' = (h', AtBeginning)) /\
  (0 <= currentIndex h ->
   exists p d m,
     array_get (pages h) (currentIndex h) = Some p /\
     api_back h' =
       ({| pages := pages h'; currentIndex := currentIndex h |}, Ok200 d m) /\
     Data.page d = url p /\
     Data.canGoForward d = true /\
     (api_forward {| pages := pages h'; currentIndex := currentIndex h |}).1
     = h').
Proof.
  intros Hinv Hacc h'.
  destruct (accepted_visit_keeps h raw now Hinv Hacc)
    as (Hkeep & Hlen & Hcur).
  fold h' in Hkeep, Hlen, Hcur. unfold inv in Hinv. split.
  - intros Hm1. apply api_back_at_beginning. lia.
  - intros Hpos.
    assert (Hinv' : inv h') by (unfold inv; lia).
    destruct (api_back_ok h' Hinv') as (p & Hp & Hb); [lia |].
    replace (currentIndex h' - 1) with (currentIndex h) in * by lia.
    rewrite Hkeep in Hp by lia.
    eexists p, _, _. split; [exact Hp |]. split; [exact Hb |].
    split; [reflexivity |]. split; [simpl; apply Z.ltb_lt; lia |].
    rewrite api_forward_moves by (simpl; lia). simpl.
    destruct h' as [ps c]. simpl in *. f_equal. lia.
Qed.

(** ** Trimming *)

Lemma trimStart_no_leading (s : jsstring) : no_leading_space (trimStart s).
Proof.
  induction s as [| c s IH]; simpl; [exact I |].
  destruct (isWhiteSpace c) eqn:Hc; [exact IH | exact Hc].
Qed.

Lemma trimStart_id (s : jsstring) : no_leading_space s -> trimStart s = s.
Proof. destruct s as [| c s]; simpl; [reflexivity |]. intros ->. reflexivity. Qed.

Lemma trimStart_snoc (s : jsstring) (c : N) :
  isWhiteSpace c = false -> trimStart (s ++ [c]) = trimStart s ++ [c].
Proof.
  intros Hc. induction s as [| d s IH]; simpl.
  - rewrite Hc. reflexivity.
  - destruct (isWhiteSpace d); [exact IH | reflexivity].
Qed.

Lemma trimEnd_cons (s : jsstring) (c : N) :
  isWhiteSpace c = false -> trimEnd (c :: s) = c :: trimEnd s.
Proof.
  intros Hc. unfold trimEnd. simpl rev.
  rewrite trimStart_snoc by exact Hc. apply rev_unit.
Qed.

Lemma trimEnd_no_leading (s : jsstring) :
  no_leading_space s -> no_leading_space (trimEnd s).
Proof.
  destruct s as [| c s]; [intros _; exact I |].
  simpl. intros Hc. rewrite trimEnd_cons by exact Hc. exact Hc.
Qed.

Lemma trimEnd_no_trailing (s : jsstring) : no_trailing_space (trimEnd s).
Proof.
  unfold no_trailing_space, trimEnd. rewrite rev_involutive.
  apply trimStart_no_leading.
Qed.

Lemma trimEnd_id (s : jsstring) : no_trailing_space s -> trimEnd s = s.
Proof.
  unfold no_trailing_space, trimEnd. intros Hs.
  rewrite trimStart_id by exact Hs. apply rev_involutive.
Qed.

Lemma trim_no_space (s : jsstring) :
  no_leading_space (trim s) /\ no_trailing_space (trim s).
Proof.
  unfold trim. split.
  - apply trimEnd_no_leading, trimStart_no_leading.
  - apply trimEnd_no_trailing.
Qed.

Lemma trim_idempotent (s : jsstring) : trim (trim s) = trim s.
Proof.
  destruct (trim_no_space s) as [Hl Ht].
  unfold trim at 1. rewrite trimStart_id by exact Hl. apply trimEnd_id, Ht.
Qed.

(** X10. White space around the URL of the request does not matter: when
    something is left after trimming, the handler leaves the same state and
    sends the same answer for the string and for its trimmed form. *)
Theorem visit_ignores_surrounding_space (h : history) (raw now : jsstring) :
  trim raw <> [] ->
  api_visit new_URL h (JString raw) now =
  api_visit new_URL h (JString (trim raw)) now.
Proof.
  intros Ht. pose proof (trim_idempotent raw) as Hi.
  destruct raw as [| c raw]; [contradiction Ht; reflexivity |].
  destruct (trim (c :: raw)) as [| d t] eqn:Htrim; [contradiction Ht; reflexivity |].
  unfold api_visit. rewrite Hi, Htrim. reflexivity.
Qed.

(** ** The address and the title of an entry *)

Lemma startsWith_true (s p : jsstring) :
  startsWith s p = true -> exists r, s = p ++ r.
Proof.
  revert s. induction p as [| c p IH]; intros s; simpl.
  - intros _. exists s. reflexivity.
  - destruct s as [| d s]; [discriminate |].
    destruct (N.eqb_spec d c) as [-> | _]; [| discriminate]. simpl.
    intros Hs. destruct (IH s Hs) as [r ->]. exists r. reflexivity.
Qed.

Lemma has_http_scheme_prefix (u : jsstring) :
  has_http_scheme u = true ->
  exists r, u = lit "http://" ++ r \/ u = lit "https://" ++ r.
Proof.
  unfold has_http_scheme. intros Hu. apply orb_prop in Hu as [Hu | Hu];
    apply startsWith_true in Hu as [r ->]; eauto.
Qed.

Lemma normalizeUrl_has_scheme (t : jsstring) :
  has_http_scheme (normalizeUrl t) = true.
Proof.
  unfold normalizeUrl, has_http_scheme.
  destruct (startsWith t (lit "http://")) eqn:H1;
    destruct (startsWith t (lit "https://")) eqn:H2; cbn [negb andb];
    rewrite ?H1, ?H2; reflexivity.
Qed.

Lemma normalizeUrl_fixed (u : jsstring) :
  has_http_scheme u = true -> normalizeUrl u = u.
Proof.
  intros Hu. unfold normalizeUrl, has_http_scheme in *.
  destruct (startsWith u (lit "http://"));
    destruct (startsWith u (lit "https://")); try discriminate; reflexivity.
Qed.

(** X11. [normalizeUrl] always yields an address that starts with
    [http://] or [https://]; it changes its argument exactly when the
    argument has neither prefix, and applying it twice is applying it
    once. *)
Theorem normalizeUrl_scheme_idempotent (t : jsstring) :
  has_http_scheme (normalizeUrl t) = true /\
  (normalizeUrl t = t <-> has_http_scheme t = true) /\
  normalizeUrl (normalizeUrl t) = normalizeUrl t.
Proof.
  pose proof (normalizeUrl_has_scheme t) as Hs.
  split; [exact Hs |]. split; [| apply normalizeUrl_fixed, Hs].
  split; [| apply normalizeUrl_fixed]. intros Ht. rewrite <- Ht. exact Hs.
Qed.

(** The fallback of [getDomainFromUrl] on an address with one of the two
    schemes is the scheme with its colon. *)
Lemma split_slash_0_scheme (u : jsstring) :
  has_http_scheme u = true ->
  split_slash_0 u = lit "http:" \/ split_slash_0 u = lit "https:".
Proof.
  intros Hu. destruct (has_http_scheme_prefix u Hu) as [r [-> | ->]];
    [left | right]; reflexivity.
Qed.

(** X12. The title of the entry an accepted visit stores. When the trimmed
    input does not start with [http], or starts with [http://] or
    [https://], the stored address is the very string [isValidUrl] parsed,
    and the title is its host name. In the remaining case (a leading [http]
    with no [://] behind it) the stored address is the input behind
    [https://], a string that was never parsed; when it does not parse the
    title is [https:]. *)
Theorem title_of_visited_entry (raw now : jsstring) :
  accepted new_URL (JString raw) = true ->
  let t := trim raw in
  let e := newPage new_URL (normalizeUrl t) now in
  (startsWith t (lit "http") = false \/ has_http_scheme t = true ->
   exists o, new_URL (url e) = Some o /\ title e = hostname o) /\
  (forall o, new_URL (url e) = Some o -> title e = hostname o) /\
  (new_URL (url e) = None ->
   title e = lit "https:" /\
   url e = lit "https://" ++ t /\
   startsWith t (lit "http") = true /\
   is_Some (new_URL t)).
Proof.
  intros Hacc t e.
  assert (Hne : raw <> []) by (destruct raw; [discriminate | congruence]).
  rewrite accepted_JString in Hacc by exact Hne. fold t in Hacc.
  pose proof (normalizeUrl_has_scheme t) as Hs.
  assert (Hh : startsWith (normalizeUrl t) (lit "http") = true).
  { apply startsWith_http_scheme. unfold has_http_scheme in Hs.
    apply orb_prop in Hs. exact Hs. }
  assert (Htitle : title e =
                   match new_URL (normalizeUrl t) with
                   | Some o => hostname o
                   | None => split_slash_0 (normalizeUrl t)
                   end).
  { simpl. unfold getDomainFromUrl. rewrite Hh. reflexivity. }
  simpl url. split; [| split].
  - intros Hcase.
    assert (Hparsed : is_Some (new_URL (normalizeUrl t))).
    { destruct Hcase as [Hno | Hsch].
      - apply isValidUrl_no_http_prefix in Hacc; [| exact Hno].
        unfold normalizeUrl.
        destruct (startsWith t (lit "http://")) eqn:H1.
        { rewrite (startsWith_http_scheme t) in Hno by auto. discriminate. }
        destruct (startsWith t (lit "https://")) eqn:H2.
        { rewrite (startsWith_http_scheme t) in Hno by auto. discriminate. }
        exact Hacc.
      - rewrite (normalizeUrl_fixed t Hsch).
        apply isValidUrl_http_prefix; [| exact Hacc].
        apply startsWith_http_scheme. unfold has_http_scheme in Hsch.
        apply orb_prop in Hsch. exact Hsch. }
    destruct Hparsed as [o Ho]. exists o. split; [exact Ho |].
    rewrite Htitle, Ho. reflexivity.
  - intros o Ho. rewrite Htitle, Ho. reflexivity.
  - intros Hnone. rewrite Htitle, Hnone.
    destruct (startsWith t (lit "http")) eqn:Hpre.
    + destruct (has_http_scheme t) eqn:Hsch.
      * rewrite (normalizeUrl_fixed t Hsch) in Hnone.
        apply isValidUrl_http_prefix in Hacc; [| exact Hpre].
        destruct Hacc as [o Ho]. congruence.
      * assert (Hu : normalizeUrl t = lit "https://" ++ t).
        { unfold normalizeUrl, has_http_scheme in *.
          apply Bool.orb_false_elim in Hsch as [-> ->]. reflexivity. }
        rewrite Hu. repeat split.
        apply isValidUrl_http_prefix; [exact Hpre | exact Hacc].
    + apply isValidUrl_no_http_prefix in Hacc; [| exact Hpre].
      assert (Hu : normalizeUrl t = lit "https://" ++ t).
      { unfold normalizeUrl.
        destruct (startsWith t (lit "http://")) eqn:H1.
        { rewrite (startsWith_http_scheme t) in Hpre by auto. discriminate. }
        destruct (startsWith t (lit "https://")) eqn:H2.
        { rewrite (startsWith_http_scheme t) in Hpre by auto. discriminate. }
        reflexivity. }
      rewrite Hu in Hnone. destruct Hacc as [o Ho]. congruence.
Qed.

(** ** The entries of a reachable state *)

Lemma no_leading_space_app (s r : jsstring) :
  s <> [] -> no_leading_space s -> no_leading_space (s ++ r).
Proof. destruct s as [| c s]; [congruence | intros _ Hc; exact Hc]. Qed.

Lemma normalized_no_trailing_space (raw : jsstring) :
  no_trailing_space (normalizeUrl (trim raw)).
Proof.
  destruct (trim_no_space raw) as [_ Ht]. unfold normalizeUrl.
  destruct (negb _ && negb _); [| exact Ht].
  unfold no_trailing_space in *. rewrite rev_app_distr.
  destruct (rev (trim raw)) as [| c r] eqn:Hr.
  - simpl. reflexivity.
  - rewrite <- Hr in *. apply no_leading_space_app; [congruence | exact Ht].
Qed.

Lemma api_back_pages (h : history) : pages (api_back h).1 = pages h.
Proof.
  unfold api_back. destruct (currentIndex h <=? 0); [reflexivity |].
  simpl. destruct (array_get _ _); reflexivity.
Qed.

Lemma api_forward_pages (h : history) : pages (api_forward h).1 = pages h.
Proof.
  unfold api_forward.
  destruct (len (pages h) - 1 <=? currentIndex h); [reflexivity |].
  simpl. destruct (array_get _ _); reflexivity.
Qed.

(** What holds of an entry from the moment it is pushed. *)
Definition entry_well_formed (p : page) : Prop :=
  has_http_scheme (url p) = true /\
  no_trailing_space (url p) /\
  title p = getDomainFromUrl new_URL (url p) /\
  (title p = lit "http:" \/ title p = lit "https:" \/
   exists o, new_URL (url p) = Some o /\ title p = hostname o).

Lemma newPage_well_formed (raw now : jsstring) :
  entry_well_formed (newPage new_URL (normalizeUrl (trim raw)) now).
Proof.
  pose proof (normalizeUrl_has_scheme (trim raw)) as Hs.
  unfold entry_well_formed. simpl.
  split; [exact Hs |]. split; [apply normalized_no_trailing_space |].
  split; [reflexivity |].
  unfold getDomainFromUrl.
  assert (Hh : startsWith (normalizeUrl (trim raw)) (lit "http") = true).
  { apply startsWith_http_scheme. unfold has_http_scheme in Hs.
    apply orb_prop in Hs. exact Hs. }
  rewrite Hh. destruct (new_URL _) as [o |]; [right; right; eauto |].
  destruct (split_slash_0_scheme _ Hs) as [-> | ->]; auto.
Qed.

Lemma handle_entries_well_formed (h : history) (r : request) :
  Forall entry_well_formed (pages h) ->
  Forall entry_well_formed (pages (handle new_URL h r).1).
Proof.
  intros Hall. destruct r as [body now | | |]; simpl.
  - destruct (accepted new_URL body) eqn:Hacc.
    + destruct body as [raw |]; [| discriminate].
      rewrite (api_visit_accepted new_URL h raw now Hacc). cbn [fst].
      destruct (visit_update_prefix h
                  (newPage new_URL (normalizeUrl (trim raw)) now))
        as (n & _ & ->).
      apply Forall_app. split; [apply Forall_take, Hall |].
      apply Forall_singleton, newPage_well_formed.
    + destruct (api_visit_rejected new_URL h body now Hacc) as [-> _].
      exact Hall.
  - rewrite api_back_pages. exact Hall.
  - rewrite api_forward_pages. exact Hall.
  - constructor.
Qed.

(** X13. Every entry of every state reached from the initial one has an
    address that starts with [http://] or [https://] and does not end in
    white space, and a title that is [getDomainFromUrl] of that address: the
    host name of the parsed address, or else the scheme with its colon. *)
Theorem reachable_entries_well_formed (rs : list request) :
  Forall (fun h => Forall entry_well_formed (pages h))
         (states_after new_URL initial rs).
Proof.
  assert (Hgen : forall h, Forall entry_well_formed (pages h) ->
                 Forall (fun h' => Forall entry_well_formed (pages h'))
                        (states_after new_URL h rs)).
  { induction rs as [| r rs IH]; intros h Hall; simpl; constructor.
    - apply handle_entries_well_formed, Hall.
    - apply IH, handle_entries_well_formed, Hall. }
  apply Hgen. constructor.
Qed.

End Composition.

(** ** /api/history *)

(** X14. /api/history lists the entries of [pages] in their order, one
    item per entry: the item at position [i] carries the address, timestamp
    and title of [pages[i]], the 1-based index [i + 1], and [isCurrent]
    exactly when [i] is the cursor; [totalPages] is the number of items. *)
Theorem history_lists_pages_in_order (h : history) :
  len (HistoryData.history (api_history h)) = len (pages h) /\
  HistoryData.totalPages (api_history h) = len (pages h) /\
  HistoryData.currentIndex (api_history h) = currentIndex h /\
  forall i,
    match array_get (pages h) i with
    | Some p =>
        exists it,
          array_get (HistoryData.history (api_history h)) i = Some it /\
          Item.url it = url p /\
          Item.timestamp it = timestamp p /\
          Item.title it = title p /\
          Item.index it = i + 1 /\
          (Item.isCurrent it = true <-> i = currentIndex h)
    | None => array_get (HistoryData.history (api_history h)) i = None
    end.
Proof.
  unfold api_history. simpl. split; [| split; [| split]]; try reflexivity.
  - unfold len. rewrite length_imap. reflexivity.
  - intros i. unfold array_get.
    destruct (Z.leb_spec 0 i) as [Hi | Hi]; [| reflexivity].
    rewrite list_lookup_imap.
    destruct (pages h !! Z.to_nat i) as [p |]; simpl; [| reflexivity].
    eexists. split; [reflexivity |]. simpl.
    rewrite Z2Nat.id by exact Hi. repeat split; apply Z.eqb_eq.
Qed.

Lemma count_current (c : Z) (l : list page) (k : nat) :
  length (List.filter Item.isCurrent
            (imap (fun index page =>
                     {| Item.url := url page;
                        Item.timestamp := timestamp page;
                        Item.title := title page;
                        Item.index := Z.of_nat (k + index) + 1;
                        Item.isCurrent := Z.of_nat (k + index) =? c |}) l))
  = if (Z.of_nat k <=? c) && (c <? Z.of_nat k + len l) then 1%nat else 0%nat.
Proof.
  revert k. induction l as [| p l IH]; intros k.
  - simpl. unfold len. simpl.
    destruct (Z.leb_spec (Z.of_nat k) c);
      destruct (Z.ltb_spec c (Z.of_nat k + Z.of_nat 0));
      simpl; try reflexivity; lia.
  - rewrite imap_cons.
    rewrite (imap_ext _ (fun index page =>
                     {| Item.url := url page;
                        Item.timestamp := timestamp page;
                        Item.title := title page;
                        Item.index := Z.of_nat (S k + index) + 1;
                        Item.isCurrent := Z.of_nat (S k + index) =? c |}))
      by (intros i x _; unfold compose;
          replace (k + S i)%nat with (S k + i)%nat by lia; reflexivity).
    specialize (IH (S k)). cbn [List.filter Item.isCurrent].
    assert (Hlen : len (p :: l) = len l + 1) by (unfold len; simpl length; lia).
    rewrite Hlen. pose proof (len_nonneg l) as Hnn.
    destruct (Z.eqb_spec (Z.of_nat (k + 0)) c) as [He | He];
      cbn [length]; rewrite IH;
      destruct (Z.leb_spec (Z.of_nat (S k)) c);
      destruct (Z.ltb_spec c (Z.of_nat (S k) + len l));
      destruct (Z.leb_spec (Z.of_nat k) c);
      destruct (Z.ltb_spec c (Z.of_nat k + (len l + 1)));
      cbn [andb]; try reflexivity; lia.
Qed.

(** X15. The items of /api/history marked [isCurrent]: exactly one when the
    cursor is the index of an entry, none otherwise; the marked item carries
    the address /api/current reports as page. *)
Theorem history_marks_current_entry (h : history) :
  length (List.filter Item.isCurrent (HistoryData.history (api_history h)))
  = (if (0 <=? currentIndex h) && (currentIndex h <? len (pages h))
     then 1%nat else 0%nat) /\
  forall it d,
    In it (HistoryData.history (api_history h)) ->
    Item.isCurrent it = true ->
    (api_current h).1 = Ok200 d None ->
    Item.url it = Data.page d /\ Item.index it = currentIndex h + 1.
Proof.
  split.
  - exact (count_current (currentIndex h) (pages h) 0).
  - intros it d Hin Hcur Hd.
    apply list_elem_of_In, list_elem_of_lookup in Hin as [i Hi].
    unfold api_history in Hi. simpl in Hi. rewrite list_lookup_imap in Hi.
    destruct (pages h !! i) as [p |] eqn:Hp; [| discriminate].
    simpl in Hi. injection Hi as <-. simpl in *.
    apply Z.eqb_eq in Hcur. apply lookup_lt_Some in Hp as Hlt.
    split; [| lia].
    unfold api_current in Hd. unfold array_get, len in Hd.
    rewrite <- Hcur in Hd. rewrite Nat2Z.id in Hd.
    destruct (Z.leb_spec 0 (Z.of_nat i)); [| lia].
    destruct (Z.ltb_spec (Z.of_nat i) (Z.of_nat (length (pages h)))); [| lia].
    simpl in Hd. rewrite Hp in Hd. injection Hd as <-. reflexivity.
Qed.

(** ** The startup banner *)

(** X16. The "Current" line of the banner shows the page /api/current
    reports, with [None] in place of the empty string: for a cursor outside
    [pages] as well as for an entry whose address is empty. *)
Theorem banner_shows_current_page (h : history) :
  exists d,
    (api_current h).1 = Ok200 d None /\
    banner_current h =
    match Data.page d with
    | [] => lit "None"
    | u => u
    end.
Proof.
  unfold banner_current, api_current.
  destruct (Z.leb_spec 0 (currentIndex h)) as [Hlo | Hlo];
    destruct (Z.ltb_spec (currentIndex h) (len (pages h))) as [Hhi | Hhi];
    simpl.
  - destruct (array_get (pages h) (currentIndex h)) as [p |];
      eexists; split; reflexivity.
  - rewrite array_get_None by lia. eexists; split; reflexivity.
  - eexists; split; reflexivity.
  - eexists; split; reflexivity.
Qed.

(** ** Instances of the further properties *)

(** One entry and the cursor at 7: the visit keeps the entry and puts the
    cursor on the new one. *)
Lemma visit_from_any_state_witness :
  accepted sample_URL (JString (lit "d.com")) = true /\
  ~ inv {| pages := [entry "a.com"]; currentIndex := 7 |} /\
  (api_visit sample_URL {| pages := [entry "a.com"]; currentIndex := 7 |}
     (JString (lit "d.com")) t0).1 =
  {| pages := [entry "a.com";
               {| url := lit "https://d.com";
                  timestamp := t0;
                  title := lit "d.com" |}];
     currentIndex := 1 |} /\
  inv (api_visit sample_URL {| pages := [entry "a.com"]; currentIndex := 7 |}
         (JString (lit "d.com")) t0).1.
Proof.
  assert (Ha : accepted sample_URL (JString (lit "d.com")) = true)
    by reflexivity.
  split; [exact Ha |].
  split; [unfold inv, len; simpl; lia |].
  split; [reflexivity |].
  pose proof (visit_from_any_state sample_URL
                {| pages := [entry "a.com"]; currentIndex := 7 |}
                (lit "d.com") t0 Ha) as H.
  cbv zeta in H. destruct H as [Hinv _]. exact Hinv.
Defined.


(** The bare host is refused although it parses behind [https://]. *)
Lemma scheme_less_http_host_gets_no_address_witness :
  sample_URL (lit "httpbin.org") = None /\
  is_Some (sample_URL (lit "https://httpbin.org")) /\
  normalizeUrl (trim (lit "httpbin.org")) = lit "https://httpbin.org" /\
  (api_visit sample_URL (three_pages_at 2)
     (JString (lit "httpbin.org")) t0).1 = three_pages_at 2.
Proof.
  assert (Hbare : sample_URL (lit "httpbin.org") = None) by reflexivity.
  assert (Hprefixed : is_Some (sample_URL (lit "https://httpbin.org")))
    by (eexists; reflexivity).
  split; [exact Hbare |]. split; [exact Hprefixed |].
  pose proof (scheme_less_http_host_gets_no_address sample_URL
                (three_pages_at 2) t0 Hbare Hprefixed) as H.
  cbv zeta in H. destruct H as (_ & _ & Hu & _ & _ & _ & Hsame & _).
  split; [exact Hu | exact Hsame].
Defined.

(** Back from the cursor on c.com. *)
Lemma answer_is_current_projection_witness :
  (api_current (handle sample_URL (three_pages_at 2) Back).1).1 =
  Ok200 {| Data.page := lit "https://b.com";
           Data.canGoBack := true;
           Data.canGoForward := true;
           Data.currentIndex := 1;
           Data.totalPages := 3 |} None.
Proof.
  apply (answer_is_current_projection sample_URL (three_pages_at 2) Back _
           (Some (lit "Went back to: https://b.com"))).
  reflexivity.
Defined.

(** The cursor on b.com: both flags are true and both requests answer
    200. *)
Lemma flags_predict_answers_witness :
  inv (three_pages_at 1) /\
  exists d,
    (api_current (three_pages_at 1)).1 = Ok200 d None /\
    (Data.canGoBack d = true <->
     exists d' m, (api_back (three_pages_at 1)).2 = Ok200 d' m) /\
    (Data.canGoForward d = true <->
     exists d' m, (api_forward (three_pages_at 1)).2 = Ok200 d' m).
Proof.
  assert (Hi : inv (three_pages_at 1)) by (unfold inv, len; simpl; lia).
  split; [exact Hi |]. exact (flags_predict_answers (three_pages_at 1) Hi).
Defined.

(** Back on the empty history. *)
Lemma bad_request_leaves_state_witness :
  (handle sample_URL initial Back).2 = AtBeginning /\
  (handle sample_URL initial Back).1 = initial.
Proof.
  assert (He : (handle sample_URL initial Back).2 = AtBeginning)
    by reflexivity.
  split; [exact He |].
  exact (bad_request_leaves_state sample_URL initial Back _ He).
Defined.

(** Forward and back from the cursor on a.com. *)
Lemma forward_then_back_witness :
  inv (three_pages_at 0) /\
  currentIndex (three_pages_at 0) < len (pages (three_pages_at 0)) - 1 /\
  (api_forward (three_pages_at 0)).1 = three_pages_at 1 /\
  (api_back (three_pages_at 1)).1 = three_pages_at 0.
Proof.
  assert (Hi : inv (three_pages_at 0)) by (unfold inv, len; simpl; lia).
  assert (Hc : currentIndex (three_pages_at 0)
               < len (pages (three_pages_at 0)) - 1)
    by (unfold len; simpl; lia).
  split; [exact Hi |]. split; [exact Hc |].
  destruct (forward_then_back (three_pages_at 0) Hi Hc) as [Hround _].
  destruct Hround as (h1 & d1 & m1 & d2 & m2 & Hf & Hb & _);
    [simpl; lia |].
  assert (Hh1 : h1 = three_pages_at 1)
    by (apply (f_equal fst) in Hf; symmetry; exact Hf).
  subst h1. rewrite Hb. split; reflexivity.
Defined.

(** Two calls of back from the cursor on c.com, then two of forward. *)
Lemma back_forward_times_round_trip_witness :
  inv (three_pages_at 2) /\
  back_times 2 (three_pages_at 2) = Some (three_pages_at 0) /\
  forward_times 2 (three_pages_at 0) = Some (three_pages_at 2).
Proof.
  assert (Hi : inv (three_pages_at 2)) by (unfold inv, len; simpl; lia).
  assert (Hb : back_times 2 (three_pages_at 2) = Some (three_pages_at 0))
    by reflexivity.
  split; [exact Hi |]. split; [exact Hb |].
  destruct (back_forward_times_round_trip (three_pages_at 2) 2 Hi)
    as [Hround _].
  exact (Hround _ Hb).
Defined.

(** A visit of d.com from the cursor on b.com, then back: the page is
    b.com again and the cursor is 1. *)
Lemma visit_then_back_witness :
  inv (three_pages_at 1) /\
  accepted sample_URL (JString (lit "d.com")) = true /\
  exists d m,
    api_back (api_visit sample_URL (three_pages_at 1)
                (JString (lit "d.com")) t0).1 =
    ({| pages := [entry "a.com"; entry "b.com"; entry "d.com"];
        currentIndex := 1 |}, Ok200 d m) /\
    Data.page d = lit "https://b.com".
Proof.
  assert (Hi : inv (three_pages_at 1)) by (unfold inv, len; simpl; lia).
  assert (Ha : accepted sample_URL (JString (lit "d.com")) = true)
    by reflexivity.
  split; [exact Hi |]. split; [exact Ha |].
  pose proof (visit_then_back sample_URL (three_pages_at 1)
                (lit "d.com") t0 Hi Ha) as H.
  cbv zeta in H. destruct H as [_ H].
  destruct H as (p & d & m & Hp & Hb & Hpage & _); [simpl; lia |].
  exists d, m. split; [exact Hb |].
  rewrite Hpage. injection Hp as <-. reflexivity.
Defined.

(** Blanks around d.com. *)
Lemma visit_ignores_surrounding_space_witness :
  trim (lit "  d.com ") <> [] /\
  api_visit sample_URL (three_pages_at 0) (JString (lit "  d.com ")) t0 =
  api_visit sample_URL (three_pages_at 0) (JString (lit "d.com")) t0.
Proof.
  assert (Ht : trim (lit "  d.com ") <> []) by (cbv; discriminate).
  split; [exact Ht |].
  exact (visit_ignores_surrounding_space sample_URL (three_pages_at 0)
           (lit "  d.com ") t0 Ht).
Defined.

(** A scheme-less host: the title is the host. *)
Lemma title_of_visited_entry_witness :
  accepted sample_URL (JString (lit "example.com")) = true /\
  title (newPage sample_URL (normalizeUrl (trim (lit "example.com"))) t0) =
  lit "example.com".
Proof.
  assert (Ha : accepted sample_URL (JString (lit "example.com")) = true)
    by reflexivity.
  split; [exact Ha |].
  pose proof (title_of_visited_entry sample_URL (lit "example.com") t0 Ha)
    as H.
  cbv zeta in H. destruct H as (_ & Hparsed & _).
  rewrite (Hparsed {| hostname := lit "example.com" |} eq_refl). reflexivity.
Defined.

(** The remaining case of the title, with a constructor that answers as
    the platform's does on the two strings involved: [http:foo] parses (its
    host is [foo]), [https://http:foo] does not (its port is not a number).
    The visit is accepted, and the entry stored has an address that does
    not parse and the title [https:]. *)
Example title_falls_back_to_scheme :
  let parser := fun s : jsstring =>
    if bool_decide (s = lit "http:foo")
    then Some {| hostname := lit "foo" |} else None in
  (api_visit parser initial (JString (lit "http:foo")) t0).1 =
  {| pages := [ {| url := lit "https://http:foo";
                   timestamp := t0;
                   title := lit "https:" |} ];
     currentIndex := 0 |}.
Proof. reflexivity. Qed.
